(** * vision-backend: the response normaliser of [server.js]

    The [/recognize] handler of [src/server.js] receives the text the upstream
    model produced ([response.output_text]) and turns it into the response
    body: it decodes the text ([JSON.parse]), validates it ([ItemsSchema.parse]),
    and runs the chain [map / filter / map / sort / slice] that builds
    [itemsRaw] (lines 137-175).  This file embeds that part of the handler and
    proves the properties the specification states about it.

    Data, as the code has it:
    - a JavaScript number is an IEEE 754 binary64 value: Rocq's primitive
      [float], with [PrimFloat]'s comparison and subtraction;
    - a JavaScript string is a sequence of code units; the embedding covers the
      code units U+0000..U+00FF (one [ascii] each), on which [trim],
      [toLowerCase] and the [\s] class of a regular expression are written out;
    - the [Set] of banned labels is a [gset string];
    - a decoded JSON value is the inductive [json];
    - [JSON.parse] is the engine's built-in: the handler is embedded over an
      arbitrary decoder [JSON_parse : string -> option json] ([None] when the
      built-in throws), and [JsonText.read] is a decoder of JSON texts that
      the examples run. *)

From Stdlib Require Import String Ascii List ZArith NArith Floats Lia Bool.
From Stdlib Require Import Sorting.Sorted Sorting.Permutation.
From stdpp Require Import gmap strings.
Import ListNotations.

Set Warnings "-inexact-float,-register-all".
Open Scope string_scope.

(** ** JavaScript strings *)

Module JsString.

(** [WhiteSpace] and [LineTerminator] code units below U+0100: TAB, LF, VT,
    FF, CR, SP and NBSP.  [String.prototype.trim] strips them and the class
    [\s] matches them. *)
Definition isWhiteSpace (c : ascii) : bool :=
  let n := N_of_ascii c in
  ((9 <=? n) && (n <=? 13) || (n =? 32) || (n =? 160))%N.

(** Lower-case mapping of one code unit: [A-Z], and the capital letters of
    U+00C0..U+00DE (the multiplication sign U+00D7 is not a letter). *)
Definition isUpper (c : ascii) : bool :=
  let n := N_of_ascii c in
  ((65 <=? n) && (n <=? 90) || (192 <=? n) && (n <=? 222) && negb (n =? 215))%N.

Definition toLowerChar (c : ascii) : ascii :=
  if isUpper c then ascii_of_N (N_of_ascii c + 32) else c.

(** [s.toLowerCase()] *)
Fixpoint toLowerCase (s : string) : string :=
  match s with
  | EmptyString => EmptyString
  | String c s' => String (toLowerChar c) (toLowerCase s')
  end.

Fixpoint trimStart (s : string) : string :=
  match s with
  | EmptyString => EmptyString
  | String c s' => if isWhiteSpace c then trimStart s' else s
  end.

Fixpoint trimEnd (s : string) : string :=
  match s with
  | EmptyString => EmptyString
  | String c s' =>
      match trimEnd s' with
      | EmptyString => if isWhiteSpace c then EmptyString else String c EmptyString
      | r => String c r
      end
  end.

(** [s.trim()] *)
Definition trim (s : string) : string := trimEnd (trimStart s).

(** [s.slice(b, e)] for non-negative integers [b <= e]. *)
Definition slice (s : string) (b e : nat) : string := substring b (e - b) s.

(** A string is falsy exactly when it is empty: [s || d]. *)
Definition or_else (s d : string) : string :=
  match s with
  | EmptyString => d
  | _ => s
  end.

(** [String(v)] of a value that is a string already. *)
Definition String_ (s : string) : string := s.

End JsString.

(** ** JavaScript numbers *)

Module JsNumber.

(** A number is falsy exactly when it is [NaN], [+0] or [-0]. *)
Definition truthy (x : float) : bool := negb (is_nan x || is_zero x).

(** [x || 0] *)
Definition or_zero (x : float) : float := if truthy x then x else 0%float.

(** [Number(v)] of a value that is a number already. *)
Definition Number (x : float) : float := x.

(** [Math.min(a, b)]: [NaN] when an argument is [NaN]; [-0] is smaller than
    [+0]. *)
Definition Math_min (a b : float) : float :=
  if is_nan a || is_nan b then nan
  else if (a <? b)%float then a
  else if (b <? a)%float then b
  else if is_zero a && get_sign a then a
  else b.

(** [Math.max(a, b)]: [NaN] when an argument is [NaN]; [+0] is larger than
    [-0]. *)
Definition Math_max (a b : float) : float :=
  if is_nan a || is_nan b then nan
  else if (a <? b)%float then b
  else if (b <? a)%float then a
  else if is_zero a && get_sign a then b
  else a.

(** The closed interval [[0,1]] of the specification. *)
Definition in_unit (x : float) : bool := ((0 <=? x) && (x <=? 1))%float.

End JsNumber.

(** ** Regular expressions

    The three patterns of the handler use literals, alternation, grouping,
    [\s] and [*]; [RegExp.prototype.test] on a pattern without flags answers
    whether some substring of the subject matches.  The matcher works by
    derivatives. *)

Module JsRegExp.

Inductive regex : Type :=
  | Void                                  (* matches nothing *)
  | Eps                                   (* the empty pattern *)
  | Chr (c : ascii)                       (* a literal character *)
  | Cls (p : ascii -> bool)               (* a character class *)
  | Cat (r1 r2 : regex)
  | Alt (r1 r2 : regex)
  | Star (r : regex).

Fixpoint nullable (r : regex) : bool :=
  match r with
  | Void | Chr _ | Cls _ => false
  | Eps | Star _ => true
  | Cat r1 r2 => nullable r1 && nullable r2
  | Alt r1 r2 => nullable r1 || nullable r2
  end.

Fixpoint deriv (a : ascii) (r : regex) : regex :=
  match r with
  | Void | Eps => Void
  | Chr c => if Ascii.eqb a c then Eps else Void
  | Cls p => if p a then Eps else Void
  | Cat r1 r2 =>
      if nullable r1 then Alt (Cat (deriv a r1) r2) (deriv a r2)
      else Cat (deriv a r1) r2
  | Alt r1 r2 => Alt (deriv a r1) (deriv a r2)
  | Star r1 => Cat (deriv a r1) (Star r1)
  end.

(** Does some prefix of [s] match [r]? *)
Fixpoint match_prefix (r : regex) (s : string) : bool :=
  nullable r ||
  match s with
  | EmptyString => false
  | String a s' => match_prefix (deriv a r) s'
  end.

(** [r.test(s)]: does a match start at some position of [s]? *)
Fixpoint test (r : regex) (s : string) : bool :=
  match_prefix r s ||
  match s with
  | EmptyString => false
  | String _ s' => test r s'
  end.

(** A literal word. *)
Fixpoint lit (w : string) : regex :=
  match w with
  | EmptyString => Eps
  | String c w' => Cat (Chr c) (lit w')
  end.

(** [(w1|w2|...|wn)] *)
Fixpoint alts (ws : list string) : regex :=
  match ws with
  | [] => Void
  | [w] => lit w
  | w :: ws' => Alt (lit w) (alts ws')
  end.

(** [\s] *)
Definition space : regex := Cls JsString.isWhiteSpace.

End JsRegExp.

(** ** [Array.prototype.sort]

    The sort is stable (ECMAScript 2019).  [SortCompare] calls the comparison
    function and reads a [NaN] result as [+0]; [x] is placed after [y] when
    the result for [(x, y)] is positive.  With a consistent comparison
    function the result of a stable sort is determined, and insertion from
    the right computes it. *)

Module JsArray.
Section Sort.
Context {A : Type} (comparefn : A -> A -> float).

Definition SortCompare (x y : A) : float :=
  let v := comparefn x y in
  if is_nan v then 0%float else v.

Fixpoint insert_sorted (x : A) (l : list A) : list A :=
  match l with
  | [] => [x]
  | y :: l' =>
      if (0 <? SortCompare x y)%float then y :: insert_sorted x l'
      else x :: l
  end.

Definition sort (l : list A) : list A := foldr insert_sorted [] l.

End Sort.
End JsArray.

(** ** Decoded JSON values *)

Inductive json : Type :=
  | JNull
  | JBool (b : bool)
  | JNumber (x : float)
  | JString (s : string)
  | JArray (elts : list json)
  | JObject (props : list (string * json)).

(** [o[k]]: the property [k] of an object, [None] for [undefined].  The keys
    of a decoded object are distinct. *)
Fixpoint get_prop (k : string) (props : list (string * json)) : option json :=
  match props with
  | [] => None
  | (k', v) :: props' => if String.eqb k k' then Some v else get_prop k props'
  end.

(** ** The [zod] schema (lines 52-60)

    [z.object] accepts a non-null, non-array object, reads the keys of its
    shape and drops every other key (the default mode of [z.object] is to
    strip unknown keys; the schema does not call [.strict()]); a missing key
    reads as [undefined], which no schema here accepts.  [z.string] accepts a
    string, [z.number] a finite number, [z.array] an array all of whose
    elements the element schema accepts.  ([z.number] is that of zod 4, which
    refuses [NaN] and the two infinities; [JSON.parse] yields an infinity
    for a literal beyond the binary64 range, such as 1e999, and never
    [NaN].) *)

Record RawItem : Type := mkRawItem {
  raw_label : string;
  raw_confidence : float;
  raw_canonical : string
}.

Record Parsed : Type := mkParsed { items : list RawItem }.

Module z.

Definition string (v : option json) : option String.string :=
  match v with
  | Some (JString s) => Some s
  | _ => None
  end.

Definition number (v : option json) : option float :=
  match v with
  | Some (JNumber x) => if is_finite x then Some x else None
  | _ => None
  end.

Definition array {A : Type} (elt : option json -> option A) (v : option json)
  : option (list A) :=
  match v with
  | Some (JArray elts) => mapM (fun e => elt (Some e)) elts
  | _ => None
  end.

(** [z.object({ label: z.string(), confidence: z.number(), canonical: z.string() })] *)
Definition item (v : option json) : option RawItem :=
  match v with
  | Some (JObject props) =>
      l ← string (get_prop "label" props);
      c ← number (get_prop "confidence" props);
      k ← string (get_prop "canonical" props);
      Some (mkRawItem l c k)
  | _ => None
  end.

End z.

(** [ItemsSchema.parse(data)]; [None] when it throws. *)
Definition ItemsSchema_parse (data : json) : option Parsed :=
  match data with
  | JObject props =>
      its ← z.array z.item (get_prop "items" props);
      Some (mkParsed its)
  | _ => None
  end.

(** ** The normalisation chain (lines 156-173) *)

Record Item : Type := mkItem {
  label : string;
  canonical : string;
  confidence : float
}.

Definition banned : gset string :=
  list_to_set ["snack"; "food"; "meal"; "dish"; "appetizer"; "plate"; "junk food"].

(** [banned.has(l)] *)
Definition has (s : gset string) (l : string) : bool := bool_decide (l ∈ s).

(** [Math.max(0, Math.min(1, Number(c) || 0))] (line 161). *)
Definition clamp_confidence (c : float) : float :=
  JsNumber.Math_max 0 (JsNumber.Math_min 1 (JsNumber.or_zero (JsNumber.Number c))).

(** The first [map] (lines 158-162). *)
Definition sanitize (it : RawItem) : Item :=
  {| label :=
       JsString.toLowerCase (JsString.trim (JsString.String_ (JsString.or_else (raw_label it) "")));
     canonical :=
       JsString.toLowerCase (JsString.trim (JsString.String_ (JsString.or_else (raw_canonical it) "")));
     confidence := clamp_confidence (raw_confidence it) |}.

(** The [filter] (line 163). *)
Definition keep (it : Item) : bool :=
  (0 <? String.length (label it))%nat && negb (has banned (label it)).

(** The three patterns (lines 167-169). *)
Definition pasta_words : list string :=
  ["spaghetti"; "penne"; "fusilli"; "farfalle"; "macaroni"; "rigatoni";
   "tagliatelle"; "linguine"; "fettuccine"; "pasta"; "noodle"].

Definition re_pasta : JsRegExp.regex := JsRegExp.alts pasta_words.

Definition re_fries : JsRegExp.regex :=
  JsRegExp.Alt (JsRegExp.lit "fries")
    (JsRegExp.Cat (JsRegExp.lit "french")
       (JsRegExp.Cat (JsRegExp.Star JsRegExp.space) (JsRegExp.lit "fries"))).

Definition orange_words : list string := ["orange"; "mandarin"; "tangerine"].

Definition re_orange : JsRegExp.regex := JsRegExp.alts orange_words.

(** The second [map] (lines 164-171). *)
Definition canonicalize (it : Item) : Item :=
  let l := label it in
  let canon := JsString.or_else (canonical it) l in
  let canon := if JsRegExp.test re_pasta l then "pasta" else canon in
  let canon := if JsRegExp.test re_fries l then "french fries" else canon in
  let canon := if JsRegExp.test re_orange l then "orange" else canon in
  {| label := label it; canonical := canon; confidence := confidence it |}.

(** The comparison function of the [sort] (line 172). *)
Definition by_confidence (a b : Item) : float :=
  (confidence b - confidence a)%float.

(** The chain before [sort]: sanitised, filtered and canonicalised items.
    [parsed.items] is an array, so [parsed.items || []] is [parsed.items]. *)
Definition survivors (parsed : Parsed) : list Item :=
  map canonicalize (List.filter keep (map sanitize (items parsed))).

(** [.sort(...).slice(0, 5)] *)
Definition rank (l : list Item) : list Item :=
  firstn 5 (JsArray.sort by_confidence l).

Definition itemsRaw (parsed : Parsed) : list Item := rank (survivors parsed).

(** ** The handler from [response.output_text] on (lines 137-175) *)

Inductive Response : Type :=
  | Success (itemsRaw : list Item)        (* 200, [res.json(itemsRaw)] *)
  | parse_failed (text : string)          (* 502, the spec's ParseError *)
  | schema_failed                         (* 502, the spec's SchemaError *)
  | no_output_text.                       (* 502, no text from upstream *)

Section Handler.
Variable JSON_parse : string -> option json.

(** Lines 142-175: the spec's [normalize]. *)
Definition normalize (textOut : string) : Response :=
  match JSON_parse textOut with
  | None => parse_failed (JsString.slice textOut 0 400)
  | Some data =>
      match ItemsSchema_parse data with
      | None => schema_failed
      | Some parsed => Success (itemsRaw parsed)
      end
  end.

(** Lines 137-175: an absent or empty text is answered before decoding. *)
Definition respond (textOut : option string) : Response :=
  match textOut with
  | None | Some EmptyString => no_output_text
  | Some t => normalize t
  end.

End Handler.

(** ** The rest of the application

    What [server.js] does around the chain: the token check every request
    passes first (lines 27-32), the guards of the [/recognize] handler (lines
    65-70), the answer to an upstream failure (lines 176-181) and the format
    the upstream model is asked for (lines 105-132). *)

(** A thrown value as the [catch] of line 176 reads it: [e.message] and
    [e.code], each a string or [undefined]. *)
Record JsError : Type := mkJsError {
  message : option string;
  code : option string
}.

(** [new Error("upstream-timeout")], the rejection of [withTimeout] (line 49). *)
Definition timeout_error : JsError :=
  {| message := Some "upstream-timeout"; code := None |}.

(** What [await withTimeout(openai.responses.create(...), 60000)] yields: the
    response with its [output_text] (a string or [undefined]), or a thrown
    error. *)
Inductive Outcome : Type :=
  | resolved (output_text : option string)
  | rejected (e : JsError).

(** A response of the server: [res.status(s).json(...)] or [res.send(...)]. *)
Inductive Body : Type :=
  | json_error (error : string) (text : option string)   (* { error, text? } *)
  | json_items (l : list Item)                           (* the array itself *)
  | plain (s : string).

Record HttpResponse : Type := mkHttp { status : nat; body : Body }.

(** [process.env.X || d]: an unset and an empty variable both give [d]. *)
Definition env_or (v : option string) (d : string) : string :=
  match v with
  | Some s => JsString.or_else s d
  | None => d
  end.

(** [x === s] for a string [s] and a value [x] that is a string or
    [undefined]. *)
Definition strict_eq (x : option string) (s : string) : bool :=
  match x with
  | Some h => String.eqb h s
  | None => false
  end.

(** The middleware of lines 28-32: [true] for [next()], [false] for the 401. *)
Definition token_check (CLIENT_TOKEN : string) (header : option string) : bool :=
  match CLIENT_TOKEN with
  | EmptyString => true
  | _ => strict_eq header CLIENT_TOKEN
  end.

(** The [catch] of lines 176-181. *)
Definition on_error (e : JsError) : HttpResponse :=
  if strict_eq (message e) "upstream-timeout" then mkHttp 504 (json_error "upstream-timeout" None)
  else if strict_eq (code e) "LIMIT_FILE_SIZE" then mkHttp 413 (json_error "file-too-large" None)
  else mkHttp 500 (json_error "vision-failed" None).

(** The four [return res...] of lines 137-175. *)
Definition reply (r : Response) : HttpResponse :=
  match r with
  | Success l => mkHttp 200 (json_items l)
  | parse_failed t => mkHttp 502 (json_error "parse-failed" (Some t))
  | schema_failed => mkHttp 502 (json_error "schema-failed" None)
  | no_output_text => mkHttp 502 (json_error "no-output-text" None)
  end.

(** The environment the process reads. *)
Record Env : Type := mkEnv {
  env_CLIENT_TOKEN : option string;
  env_OPENAI_API_KEY : option string
}.

(** A request that reached the token check: its [X-Client-Token] header and
    its route; for [/recognize], [req.file] as [upload.single("image")] left
    it.  Only a request that [upload.single] passed on has a route here: when
    the upload fails (a file above the limit, a second file), [multer] hands
    the error to Express, the handler of line 63 is not run, and the answer
    is not one of [server.js]. *)
Inductive Route (Buffer : Type) : Type :=
  | GET_health
  | POST_recognize (file : option Buffer).
Arguments GET_health {Buffer}.
Arguments POST_recognize {Buffer} file.

Section Application.
Variable JSON_parse : string -> option json.
Variable Buffer : Type.
(** The upstream call on the uploaded image (lines 72-135), awaited. *)
Variable upstream : Buffer -> Outcome.

(** The handler of [/recognize] (lines 63-182). *)
Definition recognize (env : Env) (file : option Buffer) : HttpResponse :=
  match env_or (env_OPENAI_API_KEY env) "" with
  | EmptyString => mkHttp 500 (json_error "missing-openai-key" None)
  | _ =>
      match file with
      | None => mkHttp 400 (json_error "missing-image" None)
      | Some f =>
          match upstream f with
          | rejected e => on_error e
          | resolved textOut => reply (respond JSON_parse textOut)
          end
      end
  end.

(** The token check, then the route (lines 28-35 and 63), for a request
    whose upload, if it has one, succeeded. *)
Definition server (env : Env) (header : option string) (r : Route Buffer) : HttpResponse :=
  if token_check (env_or (env_CLIENT_TOKEN env) "") header then
    match r with
    | GET_health => mkHttp 200 (plain "ok")
    | POST_recognize file => recognize env file
    end
  else mkHttp 401 (json_error "unauthorized" None).

End Application.
Arguments recognize JSON_parse {Buffer} upstream env file.
Arguments server JSON_parse {Buffer} upstream env header r.

(** ** The handler, effect by effect

    [recognize] and [server] take the upstream as a function and so do not
    tell whether it was called.  [Steps] is the same code with the call left
    open: the handler sends a response, or it calls the upstream with the
    image ([await withTimeout(openai.responses.create(...))], line 101) and
    goes on with what comes back. *)

Inductive Steps (Buffer : Type) : Type :=
  | send (r : HttpResponse)
  | call_upstream (f : Buffer) (next : Outcome -> Steps Buffer).
Arguments send {Buffer} r.
Arguments call_upstream {Buffer} f next.

Section Effects.
Variable JSON_parse : string -> option json.
Variable Buffer : Type.

(** The handler of [/recognize] (lines 63-182). *)
Definition recognize_steps (env : Env) (file : option Buffer) : Steps Buffer :=
  match env_or (env_OPENAI_API_KEY env) "" with
  | EmptyString => send (mkHttp 500 (json_error "missing-openai-key" None))
  | _ =>
      match file with
      | None => send (mkHttp 400 (json_error "missing-image" None))
      | Some f =>
          call_upstream f (fun outcome =>
            match outcome with
            | rejected e => send (on_error e)
            | resolved textOut => send (reply (respond JSON_parse textOut))
            end)
      end
  end.

(** The token check, then the route (lines 28-35 and 63). *)
Definition server_steps (env : Env) (header : option string) (r : Route Buffer)
  : Steps Buffer :=
  if token_check (env_or (env_CLIENT_TOKEN env) "") header then
    match r with
    | GET_health => send (mkHttp 200 (plain "ok"))
    | POST_recognize file => recognize_steps env file
    end
  else send (mkHttp 401 (json_error "unauthorized" None)).

(** Running the steps against an upstream: the images it was called with, in
    order, and the response sent. *)
Fixpoint run (upstream : Buffer -> Outcome) (s : Steps Buffer)
  : list Buffer * HttpResponse :=
  match s with
  | send r => ([], r)
  | call_upstream f next =>
      let (calls, r) := run upstream (next (upstream f)) in (f :: calls, r)
  end.

End Effects.
Arguments recognize_steps JSON_parse {Buffer} env file.
Arguments server_steps JSON_parse {Buffer} env header r.
Arguments run {Buffer} upstream s.

(** ** The format asked of the upstream model (lines 105-132)

    The request carries a JSON Schema; [conforms] reads the keywords it uses:
    [type], [additionalProperties: false], [required], [properties],
    [minItems], [maxItems] and [items].  A number of the schema is a finite
    one. *)

Inductive schema : Type :=
  | s_string
  | s_number
  | s_array (minItems maxItems : nat) (items : schema)
  | s_object (required : list string) (properties : list (string * schema)).

Fixpoint conforms (s : schema) (v : json) {struct s} : bool :=
  match s, v with
  | s_string, JString _ => true
  | s_number, JNumber x => is_finite x
  | s_array lo hi elt, JArray elts =>
      (lo <=? length elts)%nat && (length elts <=? hi)%nat &&
      forallb (conforms elt) elts
  | s_object required properties, JObject props =>
      forallb (fun k => match get_prop k props with Some _ => true | None => false end)
        required &&
      forallb (fun kv => existsb (fun p => String.eqb (fst kv) (fst p)) properties) props &&
      (fix each (ps : list (string * schema)) : bool :=
         match ps with
         | [] => true
         | (k, sk) :: ps' =>
             match get_prop k props with
             | Some x => conforms sk x
             | None => true
             end && each ps'
         end) properties
  | _, _ => false
  end.

(** The schema [food_labels] of lines 109-129. *)
Definition food_labels : schema :=
  s_object ["items"]
    [("items",
      s_array 0 5
        (s_object ["label"; "confidence"; "canonical"]
           [("label", s_string); ("confidence", s_number); ("canonical", s_string)]))].

(** ** A reader of JSON texts

    [JsonText.read] decodes a JSON text (ECMA-404) into a [json] value the way
    [JSON.parse] does: numbers are rounded to the nearest binary64 value, ties
    to even, and a repeated key keeps its last value.  It instantiates
    [JSON_parse] in the examples. *)

Module JsonText.

(** The four white-space characters of the JSON grammar. *)
Definition is_ws (c : ascii) : bool :=
  let n := N_of_ascii c in ((n =? 32) || (n =? 9) || (n =? 10) || (n =? 13))%N.

Fixpoint skip_ws (s : string) : string :=
  match s with
  | EmptyString => EmptyString
  | String c s' => if is_ws c then skip_ws s' else s
  end.

Definition digit (c : ascii) : option Z :=
  let n := N_of_ascii c in
  if ((48 <=? n) && (n <=? 57))%N then Some (Z.of_N n - 48)%Z else None.

Definition hex (c : ascii) : option N :=
  let n := N_of_ascii c in
  if ((48 <=? n) && (n <=? 57))%N then Some (n - 48)%N
  else if ((65 <=? n) && (n <=? 70))%N then Some (n - 55)%N
  else if ((97 <=? n) && (n <=? 102))%N then Some (n - 87)%N
  else None.

(** A run of digits: its value continued from [acc], its length, the rest. *)
Fixpoint digits (acc : Z) (len : Z) (s : string) : Z * Z * string :=
  match s with
  | EmptyString => (acc, len, s)
  | String c s' =>
      match digit c with
      | Some d => digits (10 * acc + d) (len + 1) s'
      | None => (acc, len, s)
      end
  end.

(** The binary64 value nearest to [(-1)^neg * m * 10^e] (ties to even). *)
Definition decimal (neg : bool) (m : Z) (e : Z) : float :=
  match m with
  | Zpos p =>
      if (0 <=? e)%Z then
        SF2Prim (binary_normalize prec emax
                   (if neg then Z.opp (m * 10 ^ e) else m * 10 ^ e) 0 false)
      else
        SF2Prim (SFdiv prec emax (S754_finite neg p 0)
                   (S754_finite false (Z.to_pos (10 ^ (- e))) 0))
  | _ => if neg then neg_zero else zero
  end.

Definition char (n : N) : ascii := ascii_of_N n.

(** [number]: [-? int frac? exp?] *)
Definition read_number (s : string) : option (float * string) :=
  let '(neg, s) :=
    match s with
    | String "-" s' => (true, s')
    | _ => (false, s)
    end in
  let '(i, n, s1) := digits 0 0 s in
  if (n =? 0)%Z then None
  else if (1 <? n)%Z && (match s with String "0" _ => true | _ => false end) then None
  else
    let frac :=
      match s1 with
      | String "." s2 =>
          let '(m, k, s3) := digits i 0 s2 in
          if (k =? 0)%Z then None else Some (m, k, s3)
      | _ => Some (i, 0%Z, s1)
      end in
    match frac with
    | None => None
    | Some (m, k, s3) =>
        let exp :=
          match s3 with
          | String c s4 =>
              if Ascii.eqb c "e" || Ascii.eqb c "E" then
                let '(eneg, s5) :=
                  match s4 with
                  | String "-" s' => (true, s')
                  | String "+" s' => (false, s')
                  | _ => (false, s4)
                  end in
                let '(x, xn, s6) := digits 0 0 s5 in
                if (xn =? 0)%Z then None
                else Some ((if eneg then - x else x)%Z, s6)
              else Some (0%Z, s3)
          | _ => Some (0%Z, s3)
          end in
        match exp with
        | None => None
        | Some (x, rest) => Some (decimal neg m (x - k), rest)
        end
    end.

(** The characters of a string after its opening quote.  An escape [\uXXXX]
    above U+00FF denotes a code unit outside the embedding and is refused. *)
Fixpoint read_chars (s : string) : option (string * string) :=
  match s with
  | EmptyString => None
  | String c s' =>
      if Ascii.eqb c (char 34) then Some (EmptyString, s')
      else if Ascii.eqb c (char 92) then
        match s' with
        | String e s'' =>
            let simple (ch : ascii) :=
              match read_chars s'' with
              | Some (r, rest) => Some (String ch r, rest)
              | None => None
              end in
            if Ascii.eqb e (char 34) then simple (char 34)
            else if Ascii.eqb e (char 92) then simple (char 92)
            else if Ascii.eqb e "/" then simple "/"%char
            else if Ascii.eqb e "b" then simple (char 8)
            else if Ascii.eqb e "f" then simple (char 12)
            else if Ascii.eqb e "n" then simple (char 10)
            else if Ascii.eqb e "r" then simple (char 13)
            else if Ascii.eqb e "t" then simple (char 9)
            else if Ascii.eqb e "u" then
              match s'' with
              | String h1 (String h2 (String h3 (String h4 s4))) =>
                  match hex h1, hex h2, hex h3, hex h4 with
                  | Some 0%N, Some 0%N, Some a, Some b =>
                      match read_chars s4 with
                      | Some (r, rest) => Some (String (char (16 * a + b)) r, rest)
                      | None => None
                      end
                  | _, _, _, _ => None
                  end
              | _ => None
              end
            else None
        | EmptyString => None
        end
      else if (N_of_ascii c <? 32)%N then None
      else
        match read_chars s' with
        | Some (r, rest) => Some (String c r, rest)
        | None => None
        end
  end.

(** [s] starts with the word [w]: the rest of [s]. *)
Fixpoint strip (w s : string) : option string :=
  match w, s with
  | EmptyString, _ => Some s
  | String a w', String b s' => if Ascii.eqb a b then strip w' s' else None
  | _, _ => None
  end.

(** A later property of the same name replaces the earlier value. *)
Fixpoint set_prop (k : string) (v : json) (props : list (string * json))
  : list (string * json) :=
  match props with
  | [] => [(k, v)]
  | (k', v') :: props' =>
      if String.eqb k k' then (k', v) :: props' else (k', v') :: set_prop k v props'
  end.

Fixpoint read_value (fuel : nat) (s : string) {struct fuel} : option (json * string) :=
  match fuel with
  | O => None
  | S fuel' =>
      match skip_ws s with
      | EmptyString => None
      | String c s' as t =>
          if Ascii.eqb c "[" then
            match skip_ws s' with
            | String "]" rest => Some (JArray [], rest)
            | _ => read_elements fuel' [] s'
            end
          else if Ascii.eqb c "{" then
            match skip_ws s' with
            | String "}" rest => Some (JObject [], rest)
            | _ => read_members fuel' [] s'
            end
          else if Ascii.eqb c (char 34) then
            match read_chars s' with
            | Some (str, rest) => Some (JString str, rest)
            | None => None
            end
          else if Ascii.eqb c "t" then
            match strip "true" t with Some rest => Some (JBool true, rest) | None => None end
          else if Ascii.eqb c "f" then
            match strip "false" t with Some rest => Some (JBool false, rest) | None => None end
          else if Ascii.eqb c "n" then
            match strip "null" t with Some rest => Some (JNull, rest) | None => None end
          else
            match read_number t with
            | Some (x, rest) => Some (JNumber x, rest)
            | None => None
            end
      end
  end
with read_elements (fuel : nat) (acc : list json) (s : string) {struct fuel}
  : option (json * string) :=
  match fuel with
  | O => None
  | S fuel' =>
      match read_value fuel' s with
      | Some (v, rest) =>
          match skip_ws rest with
          | String "," rest' => read_elements fuel' (acc ++ [v]) rest'
          | String "]" rest' => Some (JArray (acc ++ [v]), rest')
          | _ => None
          end
      | None => None
      end
  end
with read_members (fuel : nat) (acc : list (string * json)) (s : string) {struct fuel}
  : option (json * string) :=
  match fuel with
  | O => None
  | S fuel' =>
      match skip_ws s with
      | String c s1 =>
          if Ascii.eqb c (char 34) then
            match read_chars s1 with
            | Some (k, s2) =>
                match skip_ws s2 with
                | String ":" s3 =>
                    match read_value fuel' s3 with
                    | Some (v, rest) =>
                        match skip_ws rest with
                        | String "," rest' => read_members fuel' (set_prop k v acc) rest'
                        | String "}" rest' => Some (JObject (set_prop k v acc), rest')
                        | _ => None
                        end
                    | None => None
                    end
                | _ => None
                end
            | None => None
            end
          else None
      | EmptyString => None
      end
  end.

(** A JSON text is one value between white space. *)
Definition read (text : string) : option json :=
  match read_value (2 * String.length text + 2) text with
  | Some (v, rest) =>
      match skip_ws rest with
      | EmptyString => Some v
      | _ => None
      end
  | None => None
  end.

(** The double quote, to write JSON texts. *)
Definition q : string := String (char 34) EmptyString.

End JsonText.

(** ** The texts of the examples

    The JSON texts the specification names, and a few more; [quoted s] is [s]
    between double quotes. *)

Module Texts.
Import JsonText.

Definition quoted (s : string) : string := q ++ s ++ q.

(** An element of [items] with the keys in the order label, confidence,
    canonical; [c] is the number as written. *)
Definition item_text (l c k : string) : string :=
  "{" ++ quoted "label" ++ ":" ++ quoted l ++ "," ++
  quoted "confidence" ++ ":" ++ c ++ "," ++
  quoted "canonical" ++ ":" ++ quoted k ++ "}".

(** An item of a response, as [res.json] writes it: label, canonical,
    confidence. *)
Definition out_text (l k c : string) : string :=
  "{" ++ quoted "label" ++ ":" ++ quoted l ++ "," ++
  quoted "canonical" ++ ":" ++ quoted k ++ "," ++
  quoted "confidence" ++ ":" ++ c ++ "}".

Definition items_text (elts : string) : string :=
  "{" ++ quoted "items" ++ ":[" ++ elts ++ "]}".

(** An object with the one key [items] and no element. *)
Definition no_items : string := items_text "".

(** One item: label SNACK, confidence 0.9, canonical snack. *)
Definition snack : string := items_text (item_text "SNACK" "0.9" "snack").

(** One element, an object with the one key [foo]. *)
Definition wrong_shape : string := items_text ("{" ++ quoted "foo" ++ ":1}").

Definition not_json : string := "{not json".

(** One item: label Spaghetti, confidence 1.5, empty canonical. *)
Definition spaghetti : string := items_text (item_text "Spaghetti" "1.5" "").

(** The response to [spaghetti], wrapped as the value of [items]. *)
Definition spaghetti_again : string := items_text (out_text "spaghetti" "pasta" "1").

(** No element, and a second top-level key [extra]. *)
Definition extra_key : string :=
  "{" ++ quoted "items" ++ ":[]," ++ quoted "extra" ++ ":1}".

(** Eight items: two share the confidence 0.5, two are out of range and one
    is banned. *)
Definition six : string :=
  items_text (item_text "Kale" "0.5" "" ++ "," ++
              item_text "penne rigate" "0.9" "" ++ "," ++
              item_text "Fries" "0.5" "chips" ++ "," ++
              item_text "food" "0.99" "food" ++ "," ++
              item_text "steak" "-3" "beef" ++ "," ++
              item_text " Mandarin " "7" "" ++ "," ++
              item_text "rice" "0.25" "rice" ++ "," ++
              item_text "tofu" "0.75" "tofu").

(** Five items: a banned label in capitals and padded, a kept one, a blank
    label, a banned label of two words, and a kept label that only contains
    a banned word. *)
Definition mixed : string :=
  items_text (item_text " SNACK " "0.9" "snack" ++ "," ++
              item_text "Apple" "0.8" "" ++ "," ++
              item_text "   " "0.7" "blank" ++ "," ++
              item_text "Junk Food" "0.6" "junk" ++ "," ++
              item_text "Fast Food" "0.5" " Burger ").

(** Three items: a blank canonical value, a padded one in capitals, and one
    on a label that a rule matches. *)
Definition greens : string :=
  items_text (item_text " Kale " "0.5" "  " ++ "," ++
              item_text "Tofu" "0.75" " Bean Curd" ++ "," ++
              item_text "Penne" "0.9" "Wheat").

(** Five items with the confidences 1.5, -3, 0.25, 0 and -0. *)
Definition ranges : string :=
  items_text (item_text "a" "1.5" "" ++ "," ++
              item_text "b" "-3" "" ++ "," ++
              item_text "c" "0.25" "" ++ "," ++
              item_text "d" "0" "" ++ "," ++
              item_text "e" "-0" "").

(** One item whose confidence is a literal beyond the binary64 range. *)
Definition huge : string := items_text (item_text "Apple" "1e999" "apple").

(** One item whose confidence is a string. *)
Definition text_confidence : string :=
  items_text (item_text "Apple" (quoted "0.9") "apple").

(** One item without the key [canonical]. *)
Definition no_canonical : string :=
  items_text ("{" ++ quoted "label" ++ ":" ++ quoted "Apple" ++ "," ++
              quoted "confidence" ++ ":0.9}").

End Texts.

(** ** Vocabulary of the properties *)

(** Zero or a positive finite value, as a [spec_float]. *)
Definition nonneg_fin (x : spec_float) : bool :=
  match x with
  | S754_zero _ | S754_finite false _ _ => true
  | _ => false
  end.

(** The rank of such a value among the binary64 values: its multiple of the
    smallest positive one, [2^-1074]. *)
Definition ord (x : spec_float) : Z :=
  match x with
  | S754_finite false m e => (Zpos m * 2 ^ (e + 1074))%Z
  | _ => 0%Z
  end.

(** The place of a value among all binary64 values other than [NaN]: its
    signed multiple of [2^-1074], the infinities beyond every finite one. *)
Definition level (x : spec_float) : Z :=
  match x with
  | S754_zero _ | S754_nan => 0%Z
  | S754_infinity s => cond_Zopp s (2 ^ 2100)%Z
  | S754_finite s m e => cond_Zopp s (Zpos m * 2 ^ (e + 1074))%Z
  end.

(** A string that does not start with white space. *)
Definition clean_start (s : string) : bool :=
  match s with
  | EmptyString => true
  | String c _ => negb (JsString.isWhiteSpace c)
  end.

Module RegExpSemantics.
Import JsRegExp.

(** The strings a pattern matches. *)
Inductive matches : regex -> string -> Prop :=
  | M_Eps : matches Eps ""
  | M_Chr c : matches (Chr c) (String c "")
  | M_Cls p c : p c = true -> matches (Cls p) (String c "")
  | M_Cat r1 r2 s1 s2 :
      matches r1 s1 -> matches r2 s2 -> matches (Cat r1 r2) (s1 ++ s2)
  | M_AltL r1 r2 s : matches r1 s -> matches (Alt r1 r2) s
  | M_AltR r1 r2 s : matches r2 s -> matches (Alt r1 r2) s
  | M_Star0 r : matches (Star r) ""
  | M_StarS r s1 s2 :
      matches r s1 -> matches (Star r) s2 -> matches (Star r) (s1 ++ s2).

(** [w] occurs in [s]. *)
Definition contains (w s : string) : Prop := exists a b, s = a ++ w ++ b.

End RegExpSemantics.

(** The spec's CanonicalizationRules: the (pattern, replacement) pairs, in
    order. *)
Definition CanonicalizationRules : list (JsRegExp.regex * string) :=
  [(re_pasta, "pasta"); (re_fries, "french fries"); (re_orange, "orange")].

(** The spec's step 5: every rule whose pattern matches the label overwrites
    the canonical value, in the order of the list. *)
Definition apply_rules (rules : list (JsRegExp.regex * string)) (l init : string)
  : string :=
  fold_left (fun canon rule => if JsRegExp.test (fst rule) l then snd rule else canon)
    rules init.

(** What the schema asks of an element of [items]. *)
Definition well_shaped_item (v : json) : Prop :=
  exists props l c k,
    v = JObject props /\
    get_prop "label" props = Some (JString l) /\
    get_prop "confidence" props = Some (JNumber c) /\ is_finite c = true /\
    get_prop "canonical" props = Some (JString k).

(** What the schema asks of the decoded value: an object whose [items] is an
    array of well-shaped elements.  Other keys are not looked at. *)
Definition matches_schema (data : json) : Prop :=
  exists props elts,
    data = JObject props /\
    get_prop "items" props = Some (JArray elts) /\
    Forall well_shaped_item elts.

(** An element of [items] with the three keys and their types: a string
    [label], a number [confidence], whatever its value, and a string
    [canonical]. *)
Definition typed_item (v : json) : Prop :=
  exists props l c k,
    v = JObject props /\
    get_prop "label" props = Some (JString l) /\
    get_prop "confidence" props = Some (JNumber c) /\
    get_prop "canonical" props = Some (JString k).

(** An object whose [items] is an array of such elements. *)
Definition typed_shape (data : json) : Prop :=
  exists props elts,
    data = JObject props /\
    get_prop "items" props = Some (JArray elts) /\
    Forall typed_item elts.

(** [{ items: l }] as a decoded value: what [res.json(itemsRaw)] serialises,
    wrapped again. *)
Definition item_json (it : Item) : json :=
  JObject [("label", JString (label it));
           ("canonical", JString (canonical it));
           ("confidence", JNumber (confidence it))].

Definition items_json (l : list Item) : json :=
  JObject [("items", JArray (map item_json l))].

(** An item of the output, read as an element the schema accepts. *)
Definition raw_of (it : Item) : RawItem :=
  mkRawItem (label it) (confidence it) (canonical it).

(** An item the chain produced: a kept, sanitised and canonicalised one. *)
Definition normalized (it : Item) : Prop :=
  exists raw, keep (sanitize raw) = true /\ it = canonicalize (sanitize raw).

(** An item whose confidence lies in [[0,1]]. *)
Definition unit_conf (it : Item) : Prop := JsNumber.in_unit (confidence it) = true.

(** Descending by confidence: [b] may follow [a]. *)
Definition desc (a b : Item) : Prop := (confidence b <=? confidence a)%float = true.

(** The items of equal confidence [c], in order. *)
Definition ties (c : float) (l : list Item) : list Item :=
  List.filter (fun it => (confidence it =? c)%float) l.


(** No two items of the list have equal confidences. *)
Fixpoint distinct_confidences (l : list Item) : bool :=
  match l with
  | [] => true
  | x :: l' =>
      forallb (fun y => negb (confidence x =? confidence y)%float) l' &&
      distinct_confidences l'
  end.

(** * Properties *)

(** ** Binary64 arithmetic

    What the handler needs of IEEE 754: the clamp of line 161 lands in
    [[0,1]], and on [[0,1]] the sign of a difference is the order of its
    operands (a difference of two binary64 values is never rounded to zero
    or across it). *)

Module Binary64.
Import JsNumber.
Local Open Scope Z_scope.

(** a mantissa of [d] binary digits lies in [[2^(d-1), 2^d)] *)
Lemma digits2_bounds m :
  2 ^ (Zpos (digits2_pos m) - 1) <= Zpos m < 2 ^ Zpos (digits2_pos m).
Proof.
  induction m as [m IH|m IH|]; cbn [digits2_pos].
  - rewrite Pos2Z.inj_succ, (Pos2Z.inj_xI m).
    replace (Z.succ (Zpos (digits2_pos m)) - 1) with (Z.succ (Zpos (digits2_pos m) - 1)) by lia.
    rewrite !Z.pow_succ_r by lia.
    generalize dependent (2 ^ (Z.pos (digits2_pos m) - 1)).
    generalize dependent (2 ^ (Z.pos (digits2_pos m))). intros. lia.
  - rewrite Pos2Z.inj_succ, (Pos2Z.inj_xO m).
    replace (Z.succ (Zpos (digits2_pos m)) - 1) with (Z.succ (Zpos (digits2_pos m) - 1)) by lia.
    rewrite !Z.pow_succ_r by lia. 
    generalize dependent (2 ^ (Z.pos (digits2_pos m) - 1)).
    generalize dependent (2 ^ (Z.pos (digits2_pos m))). intros. lia.
  - cbn. lia.
Qed.

Lemma iter_xO_pow m d : Zpos (Pos.iter xO m d) = Zpos m * 2 ^ Zpos d.
Proof.
  revert m. induction d using Pos.peano_ind; intros m.
  - cbn. lia.
  - rewrite Pos.iter_succ, (Pos2Z.inj_xO (Pos.iter xO m d)), IHd, Pos2Z.inj_succ, Z.pow_succ_r by lia. lia.
Qed.

Lemma shl_align_value mx ex ez :
  ez <= ex -> Zpos (fst (shl_align mx ex ez)) = Zpos mx * 2 ^ (ex - ez)
              /\ snd (shl_align mx ex ez) = ez.
Proof.
  intros H. unfold shl_align.
  destruct (ez - ex) eqn:E; try lia.
  - assert (ex = ez) by lia. subst. rewrite Z.sub_diag. cbn [fst snd]. lia.
  - cbn [fst snd]. rewrite iter_xO_pow. replace (ex - ez) with (Zpos p) by lia. lia.
Qed.


Lemma iter_pos_iter {A} (f : A -> A) p x : SpecFloat.iter_pos f p x = Pos.iter f x p.
Proof.
  revert x. induction p as [p IH|p IH|]; intros x; cbn [SpecFloat.iter_pos Pos.iter].
  - rewrite !IH. now rewrite <- !Pos.iter_swap.
  - now rewrite !IH.
  - reflexivity.
Qed.

Lemma shr_1_m mrs : 0 <= shr_m mrs -> shr_m (shr_1 mrs) = Z.div2 (shr_m mrs).
Proof.
  destruct mrs as [m r s]. cbn [shr_m]. intros H.
  destruct m as [|[p|p|]|p]; try reflexivity. lia.
Qed.

Lemma shr_m_iter p mrs :
  0 <= shr_m mrs -> shr_m (SpecFloat.iter_pos shr_1 p mrs) = shr_m mrs / 2 ^ Zpos p.
Proof.
  intros H. rewrite iter_pos_iter, <- Z.shiftr_div_pow2 by lia.
  change (Z.shiftr (shr_m mrs) (Zpos p)) with (Pos.iter Z.div2 (shr_m mrs) p).
  induction p using Pos.peano_ind.
  - cbn [Pos.iter]. now apply shr_1_m.
  - rewrite !Pos.iter_succ, shr_1_m; [now rewrite IHp|].
    rewrite IHp. apply Pos.iter_invariant; [|exact H].
    intros x Hx. rewrite Z.div2_div. apply Z.div_pos; lia.
Qed.


Lemma fexp_eq e : fexp FloatOps.prec FloatOps.emax e = Z.max (e - 53) (-1074).
Proof. reflexivity. Qed.

(** right shift by [fexp] keeps a positive mantissa positive *)
Lemma shr_fexp_pos m e l :
  -1074 <= e ->
  let '(mrs, e') := shr_fexp FloatOps.prec FloatOps.emax (Zpos m) e l in
  0 < shr_m mrs /\ -1074 <= e'.
Proof.
  intros He. unfold shr_fexp, shr. rewrite fexp_eq. cbn [Zdigits2].
  pose proof (digits2_bounds m) as Hd.
  set (d := Zpos (digits2_pos m)) in *.
  assert (Hm : shr_m (shr_record_of_loc (Zpos m) l) = Zpos m)
    by (destruct l as [|[]]; reflexivity).
  destruct (Z.max (d + e - 53) (-1074) - e) as [|p|p] eqn:E; rewrite ?Hm; try (split; lia).
  rewrite shr_m_iter, Hm by (rewrite Hm; lia).
  split; [|lia].
  assert (Hp : Zpos p <= d - 1) by lia.
  assert (2 ^ Zpos p <= 2 ^ (d - 1)) by (apply Z.pow_le_mono_r; lia).
  apply Z.div_str_pos. split; [apply Z.pow_pos_nonneg; lia | lia].
Qed.

Lemma round_nearest_even_ge m l : m <= round_nearest_even m l.
Proof. destruct l as [|[]]; cbn; try lia. destruct (Z.even m); lia. Qed.

Lemma binary_round_aux_sign s m e l :
  -1074 <= e ->
  (exists m' e', binary_round_aux FloatOps.prec FloatOps.emax s (Zpos m) e l = S754_finite s m' e')
  \/ binary_round_aux FloatOps.prec FloatOps.emax s (Zpos m) e l = S754_infinity s.
Proof.
  intros He. unfold binary_round_aux.
  pose proof (shr_fexp_pos m e l He) as H1.
  destruct (shr_fexp _ _ (Zpos m) e l) as [mrs' e'].
  destruct H1 as [H1 He'].
  pose proof (round_nearest_even_ge (shr_m mrs') (loc_of_shr_record mrs')) as H2.
  destruct (round_nearest_even (shr_m mrs') (loc_of_shr_record mrs')) as [|m1|m1]; try lia.
  pose proof (shr_fexp_pos m1 e' loc_Exact He') as H3.
  destruct (shr_fexp _ _ (Zpos m1) e' loc_Exact) as [mrs'' e''].
  destruct H3 as [H3 _].
  destruct (shr_m mrs'') as [|m2|m2]; try lia.
  destruct (e'' <=? _); eauto.
Qed.

Lemma binary_round_sign s m e :
  -1074 <= e ->
  (exists m' e', binary_round FloatOps.prec FloatOps.emax s m e = S754_finite s m' e')
  \/ binary_round FloatOps.prec FloatOps.emax s m e = S754_infinity s.
Proof.
  intros He. unfold binary_round.
  destruct (shl_align m e _) as [mz ez] eqn:E.
  apply binary_round_aux_sign.
  unfold shl_align in E. rewrite fexp_eq in E.
  destruct (_ - e) in E; inversion E; subst; lia.
Qed.


Lemma bounded_inv m e :
  bounded FloatOps.prec FloatOps.emax m e = true ->
  Z.max (Zpos (digits2_pos m) + e - 53) (-1074) = e.
Proof.
  unfold bounded, canonical_mantissa. rewrite fexp_eq.
  intros H. apply andb_prop in H as [H _]. now apply Z.eqb_eq in H.
Qed.

Lemma pow2_pos n : 0 <= n -> 0 < 2 ^ n.
Proof. intros. apply Z.pow_pos_nonneg; lia. Qed.

(** the order on exponents, then on mantissas, is the order on values *)
Lemma bounded_lt_exp mx ex my ey :
  bounded FloatOps.prec FloatOps.emax mx ex = true ->
  bounded FloatOps.prec FloatOps.emax my ey = true ->
  ex < ey -> Zpos mx < Zpos my * 2 ^ (ey - ex).
Proof.
  intros Hx Hy Hlt.
  apply bounded_inv in Hx, Hy.
  pose proof (digits2_bounds mx) as Bx. pose proof (digits2_bounds my) as By.
  set (dx := Zpos (digits2_pos mx)) in *. set (dy := Zpos (digits2_pos my)) in *.
  assert (dy = 53) by lia. assert (dx <= 53) by lia.
  assert (2 ^ dx <= 2 ^ 53) by (apply Z.pow_le_mono_r; lia).
  assert (2 ^ 1 <= 2 ^ (ey - ex)) by (apply Z.pow_le_mono_r; lia).
  replace (dy - 1) with 52 in By by lia.
  change (2 ^ 1) with 2 in *. change (2 ^ 52) with 4503599627370496 in *.
  change (2 ^ 53) with 9007199254740992 in *.
  nia.
Qed.


Lemma binary_normalize_ltb D e :
  -1074 <= e ->
  SFltb (S754_zero false) (binary_normalize FloatOps.prec FloatOps.emax D e false) = (0 <? D).
Proof.
  intros He. destruct D as [|p|p]; cbn [binary_normalize].
  - reflexivity.
  - destruct (binary_round_sign false p e He) as [(m' & e' & ->)| ->]; reflexivity.
  - destruct (binary_round_sign true p e He) as [(m' & e' & ->)| ->]; reflexivity.
Qed.

Lemma SFsub_pos x y :
  valid_binary x = true -> valid_binary y = true ->
  nonneg_fin x = true -> nonneg_fin y = true ->
  SFltb (S754_zero false) (SF64sub y x) = SFltb x y.
Proof.
  intros Vx Vy Nx Ny.
  destruct x as [sx|sx| |sx mx ex], y as [sy|sy| |sy my ey]; try discriminate.
  - destruct sx, sy; reflexivity.
  - destruct sy; [discriminate|reflexivity].
  - destruct sx; [discriminate|reflexivity].
  - destruct sx, sy; try discriminate. cbn [valid_binary] in Vx, Vy.
    unfold SF64sub, SFsub. cbn [cond_Zopp].
    pose proof (bounded_inv _ _ Vx) as Ex. pose proof (bounded_inv _ _ Vy) as Ey.
    rewrite binary_normalize_ltb by lia.
    destruct (shl_align_value my ey (Z.min ey ex) ltac:(lia)) as [-> _].
    destruct (shl_align_value mx ex (Z.min ey ex) ltac:(lia)) as [-> _].
    unfold SFltb, SFcompare.
    destruct (Z.compare_spec ex ey) as [->|Hlt|Hgt].
    + rewrite Z.min_id, Z.sub_diag, !Z.mul_1_r.
      change (Pos.compare_cont Eq mx my) with (Pos.compare mx my).
      destruct (Pos.compare_spec mx my); destruct (Z.ltb_spec 0 (Zpos my - Zpos mx)); lia.
    + rewrite Z.min_r, Z.sub_diag, Z.mul_1_r by lia.
      pose proof (bounded_lt_exp _ _ _ _ Vx Vy Hlt).
      destruct (Z.ltb_spec 0 (Zpos my * 2 ^ (ey - ex) - Zpos mx)); lia.
    + rewrite Z.min_l, Z.sub_diag, Z.mul_1_r by lia.
      pose proof (bounded_lt_exp _ _ _ _ Vy Vx Hgt).
      destruct (Z.ltb_spec 0 (Zpos my - Zpos mx * 2 ^ (ex - ey))); lia.
Qed.

(** on primitive floats *)
Lemma zero_SF : Prim2SF 0 = S754_zero false. Proof. reflexivity. Qed.
Lemma one_SF : Prim2SF 1 = S754_finite false 4503599627370496 (-52). Proof. reflexivity. Qed.


Lemma in_unit_nonneg x : in_unit x = true -> nonneg_fin (Prim2SF x) = true.
Proof.
  unfold in_unit. rewrite !leb_spec, zero_SF, one_SF. intros H.
  apply andb_prop in H as [H0 H1].
  destruct (Prim2SF x) as [s|s| |s m e]; try reflexivity; try discriminate.
  - destruct s; discriminate.
  - destruct s; [discriminate|reflexivity].
Qed.

Lemma sub_pos_unit x y :
  in_unit x = true -> in_unit y = true -> (0 <? y - x)%float = (x <? y)%float.
Proof.
  intros Hx Hy. rewrite !ltb_spec, sub_spec, zero_SF.
  apply SFsub_pos; auto using Prim2SF_valid, in_unit_nonneg.
Qed.


Lemma clamp_confidence_eq x :
  clamp_confidence x = if is_nan x || is_zero x then 0%float
            else if (1 <? x)%float then 1%float
            else if (0 <? x)%float then x else 0%float.
Proof.
  unfold clamp_confidence, or_zero, truthy, Number.
  destruct (is_nan x || is_zero x) eqn:E; cbn [negb].
  - reflexivity.
  - apply orb_false_elim in E as [Hn Hz].
    unfold Math_min. change (is_nan 1) with false. rewrite Hn. cbn [orb].
    destruct (1 <? x)%float eqn:H1; [reflexivity|].
    assert (Hmax : Math_max 0 x = if (0 <? x)%float then x else 0%float).
    { unfold Math_max. change (is_nan 0) with false. rewrite Hn. cbn [orb].
      destruct (0 <? x)%float; [reflexivity|].
      destruct (x <? 0)%float; reflexivity. }
    destruct (x <? 1)%float; [exact Hmax|].
    change (is_zero 1 && get_sign 1) with false. exact Hmax.
Qed.

Lemma SFcompare_antisym x y :
  SFcompare y x = option_map CompOpp (SFcompare x y).
Proof.
  destruct x as [sx|sx| |sx mx ex], y as [sy|sy| |sy my ey]; cbn;
    try reflexivity; try (destruct sx; reflexivity); try (destruct sy; reflexivity);
    try (destruct sx, sy; reflexivity).
  destruct sx, sy; try reflexivity;
    rewrite (Z.compare_antisym ex ey); destruct (ex ?= ey)%Z; cbn; try reflexivity;
    rewrite (Pos.compare_cont_antisym mx my Eq); cbn; rewrite ?CompOpp_involutive; reflexivity.
Qed.

Lemma is_nan_false_SF x : is_nan x = false -> Prim2SF x <> S754_nan.
Proof.
  unfold is_nan. rewrite FloatAxioms.eqb_spec. intros H E. rewrite E in H. discriminate.
Qed.

Lemma ltb_leb x y : (x <? y)%float = true -> (x <=? y)%float = true.
Proof.
  rewrite ltb_spec, leb_spec. unfold SFltb, SFleb.
  destruct (SFcompare _ _) as [[]|]; congruence.
Qed.

Lemma not_ltb_leb x y :
  is_nan x = false -> is_nan y = false ->
  (x <? y)%float = false -> (y <=? x)%float = true.
Proof.
  intros Hx Hy. apply is_nan_false_SF in Hx, Hy.
  rewrite ltb_spec, leb_spec. unfold SFltb, SFleb.
  rewrite (SFcompare_antisym (Prim2SF x) (Prim2SF y)).
  destruct (SFcompare (Prim2SF x) (Prim2SF y)) as [[]|] eqn:E; cbn; try congruence.
  destruct (Prim2SF x) as [| | |], (Prim2SF y) as [| | |]; cbn in E; congruence.
Qed.

Lemma clamp_confidence_in_unit x : in_unit (clamp_confidence x) = true.
Proof.
  rewrite clamp_confidence_eq.
  destruct (is_nan x || is_zero x) eqn:E; [reflexivity|].
  apply orb_false_elim in E as [Hn Hz].
  destruct (1 <? x)%float eqn:H1; [reflexivity|].
  destruct (0 <? x)%float eqn:H0; [|reflexivity].
  unfold in_unit. rewrite (ltb_leb _ _ H0), (not_ltb_leb 1%float x); auto.
Qed.

Lemma clamp_confidence_idem x : clamp_confidence (clamp_confidence x) = clamp_confidence x.
Proof.
  rewrite (clamp_confidence_eq x).
  destruct (is_nan x || is_zero x) eqn:E; [reflexivity|].
  destruct (1 <? x)%float eqn:H1; [reflexivity|].
  destruct (0 <? x)%float eqn:H0; [|reflexivity].
  rewrite clamp_confidence_eq, E, H1, H0. reflexivity.
Qed.

Lemma ord_pos m e :
  bounded FloatOps.prec FloatOps.emax m e = true -> 0 < Zpos m * 2 ^ (e + 1074).
Proof.
  intros H. apply bounded_inv in H.
  apply Z.mul_pos_pos; [lia|apply pow2_pos; lia].
Qed.

(** on zero and the positive finite values, the comparison is the order of
    the ranks *)
Lemma SFcompare_ord x y :
  valid_binary x = true -> valid_binary y = true ->
  nonneg_fin x = true -> nonneg_fin y = true ->
  SFcompare x y = Some (ord x ?= ord y).
Proof.
  intros Vx Vy Nx Ny.
  destruct x as [sx|sx| |sx mx ex], y as [sy|sy| |sy my ey]; try discriminate.
  - reflexivity.
  - destruct sy; [discriminate|]. cbn [SFcompare ord].
    pose proof (ord_pos _ _ Vy). destruct (Z.compare_spec 0 (Zpos my * 2 ^ (ey + 1074))); [lia|reflexivity|lia].
  - destruct sx; [discriminate|]. cbn [SFcompare ord].
    pose proof (ord_pos _ _ Vx). destruct (Z.compare_spec (Zpos mx * 2 ^ (ex + 1074)) 0); [lia|lia|reflexivity].
  - destruct sx, sy; try discriminate. cbn [valid_binary] in Vx, Vy. cbn [SFcompare ord].
    pose proof (bounded_inv _ _ Vx) as Ex. pose proof (bounded_inv _ _ Vy) as Ey.
    f_equal. destruct (Z.compare_spec ex ey) as [->|Hlt|Hgt].
    + change (Pos.compare_cont Eq mx my) with (Pos.compare mx my).
      rewrite Pos2Z.inj_compare. apply Zmult_compare_compat_r.
      pose proof (pow2_pos (ey + 1074)). lia.
    + symmetry. apply Z.compare_lt_iff.
      pose proof (bounded_lt_exp _ _ _ _ Vx Vy Hlt) as B.
      replace (ey + 1074) with ((ey - ex) + (ex + 1074)) by lia.
      rewrite (Z.pow_add_r 2 (ey - ex) (ex + 1074)), Z.mul_assoc by lia.
      apply Z.mul_lt_mono_pos_r; [apply pow2_pos; lia|exact B].
    + symmetry. apply Z.compare_gt_iff.
      pose proof (bounded_lt_exp _ _ _ _ Vy Vx Hgt) as B.
      replace (ex + 1074) with ((ex - ey) + (ey + 1074)) by lia.
      rewrite (Z.pow_add_r 2 (ex - ey) (ey + 1074)), Z.mul_assoc by lia.
      apply Z.mul_lt_mono_pos_r; [apply pow2_pos; lia|exact B].
Qed.

Lemma leb_ord x y :
  in_unit x = true -> in_unit y = true ->
  (x <=? y)%float = (ord (Prim2SF x) <=? ord (Prim2SF y)).
Proof.
  intros Hx Hy. rewrite leb_spec. unfold SFleb.
  rewrite SFcompare_ord by auto using Prim2SF_valid, in_unit_nonneg.
  unfold Z.leb. now destruct (_ ?= _).
Qed.

Lemma ltb_ord x y :
  in_unit x = true -> in_unit y = true ->
  (x <? y)%float = (ord (Prim2SF x) <? ord (Prim2SF y)).
Proof.
  intros Hx Hy. rewrite ltb_spec. unfold SFltb.
  rewrite SFcompare_ord by auto using Prim2SF_valid, in_unit_nonneg.
  unfold Z.ltb. now destruct (_ ?= _).
Qed.

Lemma in_unit_not_nan x : in_unit x = true -> is_nan x = false.
Proof.
  intros H. apply in_unit_nonneg in H. unfold is_nan.
  rewrite FloatAxioms.eqb_spec. unfold SFeqb.
  rewrite SFcompare_ord by auto using Prim2SF_valid. now rewrite Z.compare_refl.
Qed.

(** a value of [[0,1]] is finite *)
Lemma in_unit_finite x : in_unit x = true -> is_finite x = true.
Proof.
  intros H. unfold is_finite. rewrite (in_unit_not_nan x H). cbn [orb].
  apply negb_true_iff. unfold is_infinity.
  rewrite FloatAxioms.eqb_spec, abs_spec. apply in_unit_nonneg in H.
  change (Prim2SF infinity) with (S754_infinity false).
  destruct (Prim2SF x) as [s|s| |s m e]; try discriminate; reflexivity.
Qed.

(** two values equal to a third are not in strict order *)
Lemma SFcompare_Eq_inv x y :
  SFcompare x y = Some Eq ->
  x = y \/ (exists s s', x = S754_zero s /\ y = S754_zero s').
Proof.
  destruct x as [sx|sx| |sx mx ex], y as [sy|sy| |sy my ey]; cbn;
    try discriminate; try (destruct sx; discriminate); try (destruct sy; discriminate).
  - eauto.
  - destruct sx, sy; try discriminate; auto.
  - intros H.
    assert (E : sx = sy /\ (ex ?= ey) = Eq /\ Pos.compare_cont Eq mx my = Eq).
    { destruct sx, sy; try discriminate; destruct (ex ?= ey); try discriminate;
        destruct (Pos.compare_cont Eq mx my); try discriminate; auto. }
    destruct E as (-> & E1 & E2). apply Z.compare_eq in E1. apply Pos.compare_eq in E2.
    subst. now left.
Qed.

Lemma SFcompare_refl x : x <> S754_nan -> SFcompare x x = Some Eq.
Proof.
  destruct x as [s|s| |s m e]; cbn; try congruence; try (destruct s; reflexivity).
  intros _. destruct s; rewrite Z.compare_refl, Pos.compare_cont_refl; reflexivity.
Qed.

(** a value that is not equal to itself is [NaN] *)
Lemma is_nan_true_SF x : is_nan x = true -> Prim2SF x = S754_nan.
Proof.
  unfold is_nan. rewrite FloatAxioms.eqb_spec. unfold SFeqb. intros H.
  destruct (Prim2SF x) as [s|s| |s m e] eqn:E; try reflexivity;
    rewrite SFcompare_refl in H by discriminate; discriminate.
Qed.

Lemma SFcompare_refl_not_Lt x : SFcompare x x <> Some Lt.
Proof.
  destruct x as [s|s| |s m e]; cbn; try discriminate; try (destruct s; discriminate).
  destruct s; rewrite Z.compare_refl, Pos.compare_cont_refl; discriminate.
Qed.

Lemma eqb_ltb_false x y c :
  (x =? c)%float = true -> (y =? c)%float = true -> (x <? y)%float = false.
Proof.
  rewrite !FloatAxioms.eqb_spec, ltb_spec. unfold SFeqb, SFltb.
  destruct (SFcompare (Prim2SF x) (Prim2SF c)) as [[]|] eqn:E1; try discriminate.
  destruct (SFcompare (Prim2SF y) (Prim2SF c)) as [[]|] eqn:E2; try discriminate.
  intros _ _.
  apply SFcompare_Eq_inv in E1, E2.
  destruct E1 as [E1|(s1 & s1' & E1 & E1')], E2 as [E2|(s2 & s2' & E2 & E2')].
  - rewrite E1, E2. pose proof (SFcompare_refl_not_Lt (Prim2SF c)).
    destruct (SFcompare _ _) as [[]|]; congruence.
  - rewrite E1, E2, E2'. reflexivity.
  - rewrite E1, E2, E1'. reflexivity.
  - rewrite E1, E2. reflexivity.
Qed.

Lemma leb_trans_unit x y z :
  in_unit x = true -> in_unit y = true -> in_unit z = true ->
  (x <=? y)%float = true -> (y <=? z)%float = true -> (x <=? z)%float = true.
Proof.
  intros Hx Hy Hz. rewrite !leb_ord by assumption. rewrite !Z.leb_le. lia.
Qed.

Lemma leb_not_ltb x y :
  in_unit x = true -> in_unit y = true ->
  (y <=? x)%float = true -> (x <? y)%float = false.
Proof.
  intros Hx Hy. rewrite leb_ord, ltb_ord by assumption. rewrite Z.leb_le, Z.ltb_ge. lia.
Qed.

Lemma eqb_ord x y :
  in_unit x = true -> in_unit y = true ->
  (x =? y)%float = (ord (Prim2SF x) =? ord (Prim2SF y)).
Proof.
  intros Hx Hy. rewrite FloatAxioms.eqb_spec. unfold SFeqb.
  rewrite SFcompare_ord by auto using Prim2SF_valid, in_unit_nonneg.
  destruct (Z.compare_spec (ord (Prim2SF x)) (ord (Prim2SF y))) as [E|E|E]; symmetry;
    [now apply Z.eqb_eq|apply Z.eqb_neq; lia|apply Z.eqb_neq; lia].
Qed.

Lemma eqb_refl_unit x : in_unit x = true -> (x =? x)%float = true.
Proof. intros H. rewrite eqb_ord by assumption. apply Z.eqb_refl. Qed.

Lemma leb_refl_unit x : in_unit x = true -> (x <=? x)%float = true.
Proof. intros H. rewrite leb_ord by assumption. apply Z.leb_refl. Qed.

Lemma leb_antisym_unit x y :
  in_unit x = true -> in_unit y = true ->
  (x <=? y)%float = true -> (y <=? x)%float = true -> (x =? y)%float = true.
Proof.
  intros Hx Hy. rewrite !leb_ord, eqb_ord by assumption.
  rewrite !Z.leb_le, Z.eqb_eq. lia.
Qed.

(** a value of [[0,1]] that is at most 0 is zero, of either sign *)
Lemma unit_le_zero x :
  in_unit x = true -> (x <=? 0)%float = true -> is_zero x = true.
Proof.
  intros Hx H. unfold is_zero. rewrite FloatAxioms.eqb_spec. unfold SFeqb.
  rewrite leb_ord in H by (assumption || reflexivity).
  rewrite SFcompare_ord by auto using Prim2SF_valid, in_unit_nonneg.
  apply in_unit_nonneg in Hx.
  change (ord (Prim2SF zero)) with 0 in *. change (ord (Prim2SF 0)) with 0 in H.
  apply Z.leb_le in H.
  destruct (Prim2SF x) as [s|s| |s m e] eqn:E; try discriminate; try reflexivity.
  destruct s; [discriminate|]. cbn [ord] in *.
  pose proof (Prim2SF_valid x) as V. rewrite E in V. apply ord_pos in V. lia.
Qed.

(** the clamp yields [0], [1], or its argument strictly between them *)
Lemma clamp_confidence_cases x :
  clamp_confidence x = 0%float \/ clamp_confidence x = 1%float \/
  (clamp_confidence x = x /\ (0 <? x)%float = true /\ (1 <? x)%float = false).
Proof.
  rewrite clamp_confidence_eq.
  destruct (is_nan x || is_zero x); [now left|].
  destruct (1 <? x)%float; [now right; left|].
  destruct (0 <? x)%float; [now right; right|now left].
Qed.

(** a clamped value that compares equal to 0 is [+0] *)
Lemma clamp_confidence_zero x :
  is_zero (clamp_confidence x) = true -> clamp_confidence x = 0%float.
Proof.
  destruct (clamp_confidence_cases x) as [E|[E|(E & H0 & H1)]]; rewrite E; try reflexivity.
  - discriminate.
  - intros Hz. exfalso. unfold is_zero in Hz.
    rewrite FloatAxioms.eqb_spec in Hz. rewrite ltb_spec in H0.
    unfold SFeqb in Hz. unfold SFltb in H0.
    change zero with 0%float in Hz.
    rewrite (SFcompare_antisym (Prim2SF x) (Prim2SF 0)) in H0.
    destruct (SFcompare (Prim2SF x) (Prim2SF 0)) as [[]|]; discriminate.
Qed.

End Binary64.

(** ** Strings *)

Module StringFacts.
Import JsString.

Lemma app_cons c s t : String c s ++ t = String c (s ++ t).
Proof. reflexivity. Qed.

Lemma app_nil_l s : "" ++ s = s.
Proof. reflexivity. Qed.


Lemma app_assoc s t u : (s ++ t) ++ u = s ++ (t ++ u).
Proof. induction s as [|c s IH]; [reflexivity|]. now rewrite !app_cons, IH. Qed.

Lemma app_eq_nil s t : s ++ t = "" -> s = "" /\ t = "".
Proof. destruct s; [now rewrite app_nil_l|discriminate]. Qed.

Lemma toLowerChar_idem c : toLowerChar (toLowerChar c) = toLowerChar c.
Proof. destruct c as [[] [] [] [] [] [] [] []]; reflexivity. Qed.

Lemma isWhiteSpace_toLowerChar c : isWhiteSpace (toLowerChar c) = isWhiteSpace c.
Proof. destruct c as [[] [] [] [] [] [] [] []]; reflexivity. Qed.

Lemma toLowerCase_idem s : toLowerCase (toLowerCase s) = toLowerCase s.
Proof. induction s as [|c s IH]; cbn; [reflexivity|]. now rewrite toLowerChar_idem, IH. Qed.

Lemma trimStart_toLowerCase s : trimStart (toLowerCase s) = toLowerCase (trimStart s).
Proof.
  induction s as [|c s IH]; cbn; [reflexivity|].
  rewrite isWhiteSpace_toLowerChar. destruct (isWhiteSpace c); [exact IH|reflexivity].
Qed.

Lemma trimEnd_toLowerCase s : trimEnd (toLowerCase s) = toLowerCase (trimEnd s).
Proof.
  induction s as [|c s IH]; cbn; [reflexivity|].
  rewrite IH, isWhiteSpace_toLowerChar.
  destruct (trimEnd s); cbn; [destruct (isWhiteSpace c)|]; reflexivity.
Qed.

Lemma trim_toLowerCase s : trim (toLowerCase s) = toLowerCase (trim s).
Proof. unfold trim. now rewrite trimStart_toLowerCase, trimEnd_toLowerCase. Qed.


Lemma trimStart_clean s : clean_start (trimStart s) = true.
Proof.
  induction s as [|c s IH]; cbn; [reflexivity|].
  destruct (isWhiteSpace c) eqn:E; [exact IH|]. cbn. now rewrite E.
Qed.

Lemma trimStart_id s : clean_start s = true -> trimStart s = s.
Proof. destruct s as [|c s]; cbn; [reflexivity|]. now destruct (isWhiteSpace c). Qed.

Lemma trimEnd_clean s : clean_start s = true -> clean_start (trimEnd s) = true.
Proof.
  destruct s as [|c s]; cbn; [reflexivity|]. intros H.
  destruct (trimEnd s); cbn; [|exact H].
  destruct (isWhiteSpace c) eqn:W; [discriminate|cbn; now rewrite W].
Qed.

Lemma trimEnd_cons c s :
  trimEnd (String c s) =
  match trimEnd s with
  | EmptyString => if isWhiteSpace c then EmptyString else String c EmptyString
  | r => String c r
  end.
Proof. reflexivity. Qed.

Lemma trimEnd_idem s : trimEnd (trimEnd s) = trimEnd s.
Proof.
  induction s as [|c s IH]; [reflexivity|].
  rewrite (trimEnd_cons c s).
  destruct (trimEnd s) as [|c' r] eqn:E.
  - destruct (isWhiteSpace c) eqn:W; cbn; [reflexivity|now rewrite W].
  - rewrite trimEnd_cons, IH. reflexivity.
Qed.

Lemma trim_idem s : trim (trim s) = trim s.
Proof.
  unfold trim.
  rewrite (trimStart_id (trimEnd (trimStart s))) by apply trimEnd_clean, trimStart_clean.
  apply trimEnd_idem.
Qed.

(** the sanitised form of a string is stable under sanitising *)
Lemma sanitize_string_idem s :
  toLowerCase (trim (toLowerCase (trim s))) = toLowerCase (trim s).
Proof. now rewrite trim_toLowerCase, toLowerCase_idem, trim_idem. Qed.

Lemma slice_length s n : String.length (slice s 0 n) <= n.
Proof.
  unfold slice. rewrite Nat.sub_0_r. revert s.
  induction n as [|n IH]; intros [|c s]; cbn; try lia. specialize (IH s). lia.
Qed.

Lemma slice_prefix s n : exists rest, s = slice s 0 n ++ rest.
Proof.
  unfold slice. rewrite Nat.sub_0_r. revert s.
  induction n as [|n IH]; intros [|c s]; cbn.
  - now exists "".
  - now exists (String c s).
  - now exists "".
  - destruct (IH s) as [r Hr]. exists r.
    change (String c s = String c (substring 0 n s ++ r)). now rewrite <- Hr.
Qed.


End StringFacts.

(** ** The matcher *)

Module RegExpFacts.
Import JsRegExp RegExpSemantics StringFacts.

Lemma matches_Cat_inv r1 r2 s :
  matches (Cat r1 r2) s ->
  exists s1 s2, s = s1 ++ s2 /\ matches r1 s1 /\ matches r2 s2.
Proof. inversion 1; subst; eauto. Qed.

Lemma matches_Alt_inv r1 r2 s :
  matches (Alt r1 r2) s -> matches r1 s \/ matches r2 s.
Proof. inversion 1; subst; auto. Qed.

Lemma nullable_spec r : nullable r = true <-> matches r "".
Proof.
  induction r as [| |c|p|r1 IH1 r2 IH2|r1 IH1 r2 IH2|r IH]; cbn [nullable].
  - split; [discriminate|inversion 1].
  - split; [constructor|reflexivity].
  - split; [discriminate|inversion 1].
  - split; [discriminate|inversion 1].
  - rewrite andb_true_iff, IH1, IH2. split.
    + intros [H1 H2]. change "" with ("" ++ ""). now constructor.
    + intros H. apply matches_Cat_inv in H as (s1 & s2 & E & H1 & H2).
      symmetry in E. apply app_eq_nil in E as [-> ->]. now split.
  - rewrite orb_true_iff, IH1, IH2. split.
    + intros [H|H]; [now apply M_AltL|now apply M_AltR].
    + apply matches_Alt_inv.
  - split; [constructor|reflexivity].
Qed.

(** A non-empty match of [r*] starts with a non-empty match of [r]. *)
Lemma star_cons r a s :
  matches (Star r) (String a s) ->
  exists s1 s2, s = s1 ++ s2 /\ matches r (String a s1) /\ matches (Star r) s2.
Proof.
  intros H. remember (Star r) as r' eqn:Er. remember (String a s) as t eqn:Et.
  induction H as [| | | | | | |r0 s1 s2 H1 _ H2 IH2]; try discriminate.
  inversion Er; subst r0.
  destruct s1 as [|c s1].
  - rewrite app_nil_l in Et. now apply IH2.
  - rewrite app_cons in Et. inversion Et; subst. now exists s1, s2.
Qed.

Lemma deriv_spec a r s : matches (deriv a r) s <-> matches r (String a s).
Proof.
  revert s.
  induction r as [| |c|p|r1 IH1 r2 IH2|r1 IH1 r2 IH2|r IH]; intros s; cbn [deriv].
  - split; inversion 1.
  - split; inversion 1.
  - destruct (Ascii.eqb_spec a c) as [->|Hne].
    + split; inversion 1; subst; constructor.
    + split; inversion 1; subst; congruence.
  - destruct (p a) eqn:E.
    + split; inversion 1; subst; now constructor.
    + split; inversion 1; subst; congruence.
  - assert (Hcat : matches (Cat (deriv a r1) r2) s <->
                   exists s1 s2, s = s1 ++ s2 /\ matches r1 (String a s1) /\ matches r2 s2).
    { split.
      - intros H. apply matches_Cat_inv in H as (s1 & s2 & -> & H1 & H2).
        exists s1, s2. rewrite <- IH1. auto.
      - intros (s1 & s2 & -> & H1 & H2). constructor; [now apply IH1|exact H2]. }
    assert (Hgoal : matches (Cat r1 r2) (String a s) <->
                    (exists s1 s2, s = s1 ++ s2 /\ matches r1 (String a s1) /\ matches r2 s2)
                    \/ (matches r1 "" /\ matches r2 (String a s))).
    { split.
      - intros H. apply matches_Cat_inv in H as (s1 & s2 & E & H1 & H2).
        destruct s1 as [|c s1].
        + rewrite app_nil_l in E. subst. now right.
        + rewrite app_cons in E. inversion E; subst. left. now exists s1, s2.
      - intros [(s1 & s2 & -> & H1 & H2)|[H1 H2]].
        + rewrite <- app_cons. now constructor.
        + rewrite <- (app_nil_l (String a s)). now constructor. }
    rewrite Hgoal. destruct (nullable r1) eqn:N.
    + apply nullable_spec in N. split.
      * intros H. apply matches_Alt_inv in H as [H|H];
          [left; now apply Hcat|right; split; [exact N|now apply IH2]].
      * intros [H|[_ H]]; [apply M_AltL; now apply Hcat|apply M_AltR; now apply IH2].
    + rewrite Hcat. split; [now left|].
      intros [H|[H _]]; [exact H|]. apply nullable_spec in H. congruence.
  - split.
    + intros H. apply matches_Alt_inv in H as [H|H];
        [apply M_AltL; now apply IH1|apply M_AltR; now apply IH2].
    + intros H. apply matches_Alt_inv in H as [H|H];
        [apply M_AltL; now apply IH1|apply M_AltR; now apply IH2].
  - split.
    + intros H. apply matches_Cat_inv in H as (s1 & s2 & -> & H1 & H2).
      rewrite <- app_cons. constructor; [now apply IH|exact H2].
    + intros H. apply star_cons in H as (s1 & s2 & -> & H1 & H2).
      constructor; [now apply IH|exact H2].
Qed.

Lemma match_prefix_spec r s :
  match_prefix r s = true <-> exists p q, s = p ++ q /\ matches r p.
Proof.
  revert r. induction s as [|a s IH]; intros r; cbn [match_prefix].
  - rewrite orb_false_r, nullable_spec. split.
    + intros H. now exists "", "".
    + intros (p & q & E & H). symmetry in E. apply app_eq_nil in E as [-> _]. exact H.
  - rewrite orb_true_iff, nullable_spec, IH. split.
    + intros [H|(p & q & -> & H)].
      * now exists "", (String a s).
      * exists (String a p), q. split; [reflexivity|now apply deriv_spec].
    + intros (p & q & E & H). destruct p as [|c p].
      * now left.
      * rewrite app_cons in E. inversion E; subst. right. exists p, q.
        split; [reflexivity|now apply deriv_spec].
Qed.

(** [test]: some substring of the subject matches. *)
Lemma test_spec r s :
  test r s = true <-> exists a p b, s = a ++ p ++ b /\ matches r p.
Proof.
  induction s as [|c s IH]; cbn [test].
  - rewrite orb_false_r, match_prefix_spec. split.
    + intros (p & q & E & H). now exists "", p, q.
    + intros (a & p & b & E & H). symmetry in E.
      apply app_eq_nil in E as [-> E]. apply app_eq_nil in E as [-> ->].
      now exists "", "".
  - rewrite orb_true_iff, match_prefix_spec, IH. split.
    + intros [(p & q & E & H)|(a & p & b & -> & H)].
      * now exists "", p, q.
      * now exists (String c a), p, b.
    + intros (a & p & b & E & H). destruct a as [|c' a].
      * left. now exists p, b.
      * rewrite app_cons in E. inversion E; subst. right. now exists a, p, b.
Qed.

Lemma matches_lit w s : matches (lit w) s <-> s = w.
Proof.
  revert s. induction w as [|c w IH]; intros s; cbn [lit].
  - split; [now inversion 1|intros ->; constructor].
  - split.
    + intros H. apply matches_Cat_inv in H as (s1 & s2 & -> & H1 & H2).
      inversion H1; subst. apply IH in H2. now subst.
    + intros ->. change (String c w) with (String c "" ++ w).
      constructor; [constructor|now apply IH].
Qed.

Lemma matches_alts ws s : matches (alts ws) s <-> In s ws.
Proof.
  induction ws as [|w ws IH]; cbn [alts].
  - split; [inversion 1|intros []].
  - destruct ws as [|w' ws].
    + rewrite matches_lit. cbn. intuition.
    + split.
      * intros H. apply matches_Alt_inv in H as [H|H];
          [left; symmetry; now apply matches_lit|right; now apply IH].
      * intros [->|H]; [apply M_AltL; now apply matches_lit|apply M_AltR; now apply IH].
Qed.

(** a pattern of alternative words tests for the occurrence of one of them *)
Lemma test_alts ws s :
  test (alts ws) s = true <-> exists w, In w ws /\ contains w s.
Proof.
  rewrite test_spec. split.
  - intros (a & p & b & -> & H). apply matches_alts in H. exists p. split; [exact H|now exists a, b].
  - intros (w & H & a & b & ->). exists a, w, b. split; [reflexivity|now apply matches_alts].
Qed.

End RegExpFacts.

(** ** The sort *)

Module SortFacts.
Import JsArray JsNumber Binary64.

Section AnyComparison.
Context {A : Type} (comparefn : A -> A -> float).

Lemma insert_sorted_perm x l : Permutation (insert_sorted comparefn x l) (x :: l).
Proof.
  induction l as [|y l IH]; cbn [insert_sorted]; [reflexivity|].
  destruct (0 <? SortCompare comparefn x y)%float; [|reflexivity].
  rewrite IH. apply perm_swap.
Qed.

Lemma sort_perm l : Permutation (sort comparefn l) l.
Proof.
  induction l as [|x l IH]; cbn; [reflexivity|].
  fold (sort comparefn l). rewrite insert_sorted_perm. now constructor.
Qed.

Lemma sort_length l : length (sort comparefn l) = length l.
Proof. apply Permutation_length, sort_perm. Qed.

Lemma sort_cons x l : sort comparefn (x :: l) = insert_sorted comparefn x (sort comparefn l).
Proof. reflexivity. Qed.

(** reading [NaN] as [+0] does not change the test for a positive result *)
Lemma SortCompare_pos x y :
  (0 <? SortCompare comparefn x y)%float = (0 <? comparefn x y)%float.
Proof.
  unfold SortCompare. cbv zeta. destruct (is_nan (comparefn x y)) eqn:E; [|reflexivity].
  apply is_nan_true_SF in E. rewrite (ltb_spec 0 (comparefn x y)), E. reflexivity.
Qed.

End AnyComparison.

(** [x] moves behind [y] exactly when [y] has the larger confidence *)
Lemma behind_iff a b :
  unit_conf a -> unit_conf b ->
  (0 <? SortCompare by_confidence a b)%float = (confidence a <? confidence b)%float.
Proof.
  intros Ha Hb. rewrite SortCompare_pos. unfold by_confidence.
  now apply sub_pos_unit.
Qed.

Lemma sort_unit l : Forall unit_conf l -> Forall unit_conf (sort by_confidence l).
Proof.
  intros H. rewrite List.Forall_forall in *. intros x Hx. apply H.
  eapply Permutation_in; [apply sort_perm|exact Hx].
Qed.

Lemma insert_sorted_unit x l :
  unit_conf x -> Forall unit_conf l -> Forall unit_conf (insert_sorted by_confidence x l).
Proof.
  intros Hx H. rewrite List.Forall_forall in *. intros y Hy.
  apply (Permutation_in _ (insert_sorted_perm by_confidence x l)) in Hy.
  destruct Hy as [<-|Hy]; auto.
Qed.

Lemma insert_sorted_desc x l :
  unit_conf x -> Forall unit_conf l -> Sorted desc l ->
  Sorted desc (insert_sorted by_confidence x l).
Proof.
  intros Hx Hl Hs. induction l as [|y l IH]; cbn [insert_sorted].
  - repeat constructor.
  - apply Forall_cons_1 in Hl as [Hy Hl]. apply Sorted_inv in Hs as [Hs Hd].
    rewrite behind_iff by assumption.
    destruct (confidence x <? confidence y)%float eqn:E.
    + constructor; [now apply IH|].
      destruct l as [|z l]; cbn [insert_sorted].
      * constructor. now apply ltb_leb.
      * apply Forall_cons_1 in Hl as [Hz Hl]. rewrite behind_iff by assumption.
        destruct (confidence x <? confidence z)%float.
        -- constructor. now inversion Hd.
        -- constructor. now apply ltb_leb.
    + constructor; [now constructor|]. constructor.
      apply not_ltb_leb; auto using in_unit_not_nan.
Qed.

Lemma sort_desc l : Forall unit_conf l -> Sorted desc (sort by_confidence l).
Proof.
  induction l as [|x l IH]; intros H; [constructor|].
  apply Forall_cons_1 in H as [Hx Hl]. rewrite sort_cons.
  apply insert_sorted_desc; auto using sort_unit.
Qed.

(** on confidences of [[0,1]] the order is transitive: every earlier item
    has at least the confidence of every later one *)
Lemma desc_strongly l :
  Forall unit_conf l -> Sorted desc l -> StronglySorted desc l.
Proof.
  induction l as [|x l IH]; intros Hu Hs; [constructor|].
  apply Forall_cons_1 in Hu as [Hx Hl]. apply Sorted_inv in Hs as [Hs Hd].
  specialize (IH Hl Hs). constructor; [exact IH|].
  destruct l as [|y l]; [constructor|].
  apply HdRel_inv in Hd. apply StronglySorted_inv in IH as [_ Hall].
  apply Forall_cons_1 in Hl as [Hy Hl].
  constructor; [exact Hd|].
  rewrite List.Forall_forall in *. intros z Hz.
  apply (leb_trans_unit (confidence z) (confidence y) (confidence x));
    [apply Hl, Hz|exact Hy|exact Hx|apply Hall, Hz|exact Hd].
Qed.

Lemma insert_sorted_ties c x l :
  unit_conf x -> Forall unit_conf l ->
  ties c (insert_sorted by_confidence x l) = ties c (x :: l).
Proof.
  intros Hx Hl. induction l as [|y l IH]; [reflexivity|].
  apply Forall_cons_1 in Hl as [Hy Hl]. cbn [insert_sorted].
  rewrite behind_iff by assumption.
  destruct (confidence x <? confidence y)%float eqn:E; [|reflexivity].
  unfold ties in *. cbn [List.filter] in *. rewrite (IH Hl).
  destruct (confidence x =? c)%float eqn:Ex, (confidence y =? c)%float eqn:Ey; try reflexivity.
  rewrite (eqb_ltb_false _ _ _ Ex Ey) in E. discriminate.
Qed.

(** stability: the items of any one confidence keep their order *)
Lemma sort_ties c l :
  Forall unit_conf l -> ties c (sort by_confidence l) = ties c l.
Proof.
  induction l as [|x l IH]; intros H; [reflexivity|].
  apply Forall_cons_1 in H as [Hx Hl]. rewrite sort_cons.
  rewrite insert_sorted_ties by auto using sort_unit.
  unfold ties in *. cbn [List.filter]. now rewrite (IH Hl).
Qed.

(** a list in descending order is left as it is *)
Lemma sort_fixed l :
  Forall unit_conf l -> Sorted desc l -> sort by_confidence l = l.
Proof.
  induction l as [|x l IH]; intros Hu Hs; [reflexivity|].
  apply Forall_cons_1 in Hu as [Hx Hl]. apply Sorted_inv in Hs as [Hs Hd].
  rewrite sort_cons, (IH Hl Hs).
  destruct l as [|y l]; [reflexivity|]. cbn [insert_sorted].
  apply Forall_cons_1 in Hl as [Hy Hl]. apply HdRel_inv in Hd.
  rewrite behind_iff, leb_not_ltb by assumption. reflexivity.
Qed.

Lemma firstn_strongly n l : StronglySorted desc l -> StronglySorted desc (firstn n l).
Proof.
  revert n. induction l as [|x l IH]; intros [|n] H; cbn [firstn]; try constructor.
  - apply IH. now apply StronglySorted_inv in H.
  - apply Forall_take. now apply StronglySorted_inv in H.
Qed.

(** ** The sort is determined

    The engine is free in how it sorts; a stable sort of items with
    confidences in [[0,1]] has one possible result, so [sort] computes what
    every conforming engine does. *)

Lemma ties_cons c x l :
  ties c (x :: l) = if (confidence x =? c)%float then x :: ties c l else ties c l.
Proof. reflexivity. Qed.

Lemma ties_In c x l : In x (ties c l) -> In x l.
Proof. intros H. now apply filter_In in H. Qed.

(** the head of a descending list is at least every item of the list *)
Lemma desc_head x l y :
  unit_conf x -> StronglySorted desc (x :: l) -> In y (x :: l) -> desc x y.
Proof.
  intros Ux S [<-|H].
  - now apply leb_refl_unit.
  - apply StronglySorted_inv in S as [_ F]. rewrite List.Forall_forall in F. now apply F.
Qed.

Lemma sorted_ties_unique l1 l2 :
  Forall unit_conf l1 -> Forall unit_conf l2 ->
  StronglySorted desc l1 -> StronglySorted desc l2 ->
  (forall c, ties c l1 = ties c l2) -> l1 = l2.
Proof.
  revert l2. induction l1 as [|x l1 IH]; intros [|y l2] U1 U2 S1 S2 T.
  - reflexivity.
  - apply Forall_cons_1 in U2 as [Uy _]. specialize (T (confidence y)).
    rewrite ties_cons, (eqb_refl_unit _ Uy) in T. discriminate.
  - apply Forall_cons_1 in U1 as [Ux _]. specialize (T (confidence x)).
    rewrite ties_cons, (eqb_refl_unit _ Ux) in T. discriminate.
  - pose proof U1 as U1'. pose proof U2 as U2'.
    apply Forall_cons_1 in U1 as [Ux U1]. apply Forall_cons_1 in U2 as [Uy U2].
    assert (Hx : In x (y :: l2)).
    { apply (ties_In (confidence x)). rewrite <- T, ties_cons, (eqb_refl_unit _ Ux).
      now left. }
    assert (Hy : In y (x :: l1)).
    { apply (ties_In (confidence y)). rewrite T, ties_cons, (eqb_refl_unit _ Uy).
      now left. }
    apply (desc_head y l2 x Uy S2) in Hx. apply (desc_head x l1 y Ux S1) in Hy.
    unfold desc in Hx, Hy.
    assert (E : (confidence y =? confidence x)%float = true)
      by now apply leb_antisym_unit.
    pose proof (T (confidence x)) as Tx.
    rewrite !ties_cons, (eqb_refl_unit _ Ux), E in Tx. injection Tx as -> _.
    f_equal. apply IH; auto.
    + now apply StronglySorted_inv in S1.
    + now apply StronglySorted_inv in S2.
    + intros c. specialize (T c). rewrite !ties_cons in T.
      destruct (confidence y =? c)%float; [now injection T|exact T].
Qed.

(** any rearrangement of the items that is in descending order and keeps the
    order of equal confidences is the list [sort] computes *)
Lemma sort_determined l l' :
  Forall unit_conf l -> Permutation l' l -> Sorted desc l' ->
  (forall c, ties c l' = ties c l) -> l' = sort by_confidence l.
Proof.
  intros U P S T.
  assert (U' : Forall unit_conf l').
  { rewrite List.Forall_forall in *. intros x Hx. apply U.
    eapply Permutation_in; [exact P|exact Hx]. }
  apply sorted_ties_unique; auto using sort_unit.
  - now apply desc_strongly.
  - apply desc_strongly; [now apply sort_unit|now apply sort_desc].
  - intros c. now rewrite T, sort_ties.
Qed.

End SortFacts.

(** ** The schema *)

Module SchemaFacts.

Lemma z_item_Some v r :
  z.item (Some v) = Some r <->
  exists props,
    v = JObject props /\
    get_prop "label" props = Some (JString (raw_label r)) /\
    get_prop "confidence" props = Some (JNumber (raw_confidence r)) /\
    is_finite (raw_confidence r) = true /\
    get_prop "canonical" props = Some (JString (raw_canonical r)).
Proof.
  split.
  - destruct v as [| | | | |props]; try discriminate. unfold z.item.
    destruct (get_prop "label" props) as [[| | |l| |]|] eqn:Hl; try discriminate.
    destruct (get_prop "confidence" props) as [[| |c| | |]|] eqn:Hc; try discriminate.
    simpl. destruct (is_finite c) eqn:N; try discriminate.
    destruct (get_prop "canonical" props) as [[| | |k| |]|] eqn:Hk; try discriminate.
    simpl. intros [= <-]. exists props. cbn. auto.
  - intros (props & -> & Hl & Hc & N & Hk). destruct r as [l c k]. cbn in *.
    unfold z.item. rewrite Hl, Hc, Hk. simpl. now rewrite N.
Qed.

Lemma z_item_is_Some v : is_Some (z.item (Some v)) <-> well_shaped_item v.
Proof.
  split.
  - intros [r Hr]. apply z_item_Some in Hr as (props & -> & Hl & Hc & N & Hk).
    now exists props, (raw_label r), (raw_confidence r), (raw_canonical r).
  - intros (props & l & c & k & -> & Hl & Hc & N & Hk).
    exists (mkRawItem l c k). apply z_item_Some. now exists props.
Qed.

Lemma ItemsSchema_parse_Some data parsed :
  ItemsSchema_parse data = Some parsed <->
  exists props elts,
    data = JObject props /\
    get_prop "items" props = Some (JArray elts) /\
    Forall2 (fun e r => z.item (Some e) = Some r) elts (items parsed).
Proof.
  destruct parsed as [its]. cbn [items]. split.
  - destruct data as [| | | | |props]; try discriminate. unfold ItemsSchema_parse.
    destruct (get_prop "items" props) as [[| | | |elts|]|] eqn:E; try discriminate.
    unfold z.array. destruct (mapM _ elts) as [its'|] eqn:M; try discriminate.
    simpl. intros [= <-]. exists props, elts. repeat split; auto.
    now apply mapM_Some.
  - intros (props & elts & -> & E & F). unfold ItemsSchema_parse. rewrite E.
    unfold z.array. apply mapM_Some in F. now rewrite F.
Qed.

(** the schema accepts exactly the values of the expected shape *)
Lemma ItemsSchema_parse_is_Some data :
  is_Some (ItemsSchema_parse data) <-> matches_schema data.
Proof.
  split.
  - intros [parsed H]. apply ItemsSchema_parse_Some in H as (props & elts & -> & E & F).
    exists props, elts. repeat split; auto.
    eapply Forall2_Forall_l; [exact F|]. apply Forall_true.
    intros r v Hv. apply z_item_is_Some. now exists r.
  - intros (props & elts & -> & E & F).
    assert (M : is_Some (mapM (fun e => z.item (Some e)) elts)).
    { apply mapM_is_Some. eapply Forall_impl; [exact F|].
      intros v Hv. now apply z_item_is_Some. }
    destruct M as [its M]. exists (mkParsed its).
    unfold ItemsSchema_parse. rewrite E. unfold z.array. now rewrite M.
Qed.

Lemma z_item_json it :
  is_finite (confidence it) = true -> z.item (Some (item_json it)) = Some (raw_of it).
Proof. intros N. unfold z.item, item_json. simpl. now rewrite N. Qed.

(** the schema reads [{ items: l }] back as [l] *)
Lemma ItemsSchema_parse_items_json l :
  Forall (fun it => is_finite (confidence it) = true) l ->
  ItemsSchema_parse (items_json l) = Some (mkParsed (map raw_of l)).
Proof.
  intros H. apply ItemsSchema_parse_Some.
  exists [("items", JArray (map item_json l))], (map item_json l).
  split; [reflexivity|split; [reflexivity|]]. cbn [items].
  induction H as [|it l N _ IH]; cbn [map]; constructor; auto using z_item_json.
Qed.

End SchemaFacts.

(** ** The chain *)

Module ChainFacts.
Import JsString JsNumber JsArray Binary64 StringFacts RegExpSemantics RegExpFacts SortFacts.

Lemma or_else_empty s : or_else s "" = s.
Proof. now destruct s. Qed.

Lemma sanitize_label raw : label (sanitize raw) = toLowerCase (trim (raw_label raw)).
Proof. cbn. unfold String_. now rewrite or_else_empty. Qed.

Lemma sanitize_canonical raw :
  canonical (sanitize raw) = toLowerCase (trim (raw_canonical raw)).
Proof. cbn. unfold String_. now rewrite or_else_empty. Qed.

Lemma length_pos_iff s : (0 <? String.length s)%nat = true <-> s <> "".
Proof. destruct s; cbn; split; congruence. Qed.

Lemma has_spec s l : has s l = true <-> l ∈ s.
Proof. unfold has. apply bool_decide_eq_true. Qed.

(** the items the filter keeps *)
Lemma keep_spec it : keep it = true <-> label it <> "" /\ label it ∉ banned.
Proof.
  unfold keep. rewrite andb_true_iff, length_pos_iff, negb_true_iff.
  rewrite <- not_true_iff_false, has_spec. reflexivity.
Qed.

(** the second [map] as the rule list of the specification *)
Lemma canonicalize_rules it :
  canonical (canonicalize it) =
  apply_rules CanonicalizationRules (label it) (or_else (canonical it) (label it)).
Proof. reflexivity. Qed.

Lemma apply_rules_cases l init :
  apply_rules CanonicalizationRules l init =
  if JsRegExp.test re_orange l then "orange"
  else if JsRegExp.test re_fries l then "french fries"
  else if JsRegExp.test re_pasta l then "pasta"
  else init.
Proof.
  unfold apply_rules, CanonicalizationRules. cbn [fold_left fst snd].
  destruct (JsRegExp.test re_orange l), (JsRegExp.test re_fries l),
    (JsRegExp.test re_pasta l); reflexivity.
Qed.

Lemma apply_rules_idem l init :
  apply_rules CanonicalizationRules l (apply_rules CanonicalizationRules l init) =
  apply_rules CanonicalizationRules l init.
Proof.
  rewrite !apply_rules_cases.
  destruct (JsRegExp.test re_orange l), (JsRegExp.test re_fries l),
    (JsRegExp.test re_pasta l); reflexivity.
Qed.

(** a sanitised string: trimming and lower-casing leave it as it is *)
Lemma apply_rules_clean l init :
  toLowerCase (trim init) = init ->
  toLowerCase (trim (apply_rules CanonicalizationRules l init)) =
  apply_rules CanonicalizationRules l init.
Proof.
  intros H. rewrite apply_rules_cases.
  destruct (JsRegExp.test re_orange l); [reflexivity|].
  destruct (JsRegExp.test re_fries l); [reflexivity|].
  destruct (JsRegExp.test re_pasta l); [reflexivity|exact H].
Qed.

Lemma apply_rules_nonempty l init :
  init <> "" -> apply_rules CanonicalizationRules l init <> "".
Proof.
  intros H. rewrite apply_rules_cases.
  destruct (JsRegExp.test re_orange l); [discriminate|].
  destruct (JsRegExp.test re_fries l); [discriminate|].
  destruct (JsRegExp.test re_pasta l); [discriminate|exact H].
Qed.

Lemma or_else_nonempty s d : d <> "" -> or_else s d <> "".
Proof. destruct s; [auto|discriminate]. Qed.

Lemma or_else_id s d : s <> "" -> or_else s d = s.
Proof. destruct s; [congruence|reflexivity]. Qed.

Lemma or_else_clean s d :
  toLowerCase (trim s) = s -> toLowerCase (trim d) = d ->
  toLowerCase (trim (or_else s d)) = or_else s d.
Proof. destruct s; auto. Qed.

(** the clamp alone sends positive infinity to 1 and negative infinity to 0;
    the schema keeps both from it *)
Lemma clamp_confidence_infinity :
  clamp_confidence infinity = 1%float /\ clamp_confidence neg_infinity = 0%float.
Proof. split; reflexivity. Qed.

(** what the chain leaves of an item *)
Lemma normalized_unit it : normalized it -> unit_conf it.
Proof. intros (raw & _ & ->). apply clamp_confidence_in_unit. Qed.

Lemma normalized_clamped it :
  normalized it -> exists c, confidence it = clamp_confidence c.
Proof. intros (raw & _ & ->). now exists (raw_confidence raw). Qed.

Lemma normalized_label it : normalized it -> label it <> "" /\ label it ∉ banned.
Proof. intros (raw & K & ->). now apply keep_spec in K. Qed.

(** running an item of the output through the two [map]s and the [filter]
    again leaves it unchanged *)
Lemma normalized_fixed it :
  normalized it -> keep (sanitize (raw_of it)) = true /\
                   canonicalize (sanitize (raw_of it)) = it.
Proof.
  intros (raw & K & ->).
  set (s := sanitize raw) in *.
  assert (Ll : toLowerCase (trim (label s)) = label s).
  { unfold s. rewrite sanitize_label. apply sanitize_string_idem. }
  assert (Lc : toLowerCase (trim (canonical s)) = canonical s).
  { unfold s. rewrite sanitize_canonical. apply sanitize_string_idem. }
  pose proof (proj1 (keep_spec s) K) as [Ne Nb].
  set (c := apply_rules CanonicalizationRules (label s) (or_else (canonical s) (label s))).
  assert (Cc : toLowerCase (trim c) = c)
    by (apply apply_rules_clean, or_else_clean; assumption).
  assert (Cn : c <> "") by (apply apply_rules_nonempty, or_else_nonempty; assumption).
  assert (E : sanitize (raw_of (canonicalize s)) =
              {| label := label s; canonical := c; confidence := confidence s |}).
  { unfold sanitize, raw_of. cbn [raw_label raw_canonical raw_confidence].
    unfold String_. rewrite !or_else_empty.
    change (label (canonicalize s)) with (label s).
    change (canonical (canonicalize s)) with c.
    change (confidence (canonicalize s)) with (confidence s).
    rewrite Ll, Cc. f_equal. unfold s. cbn [confidence sanitize].
    apply clamp_confidence_idem. }
  rewrite E. split.
  - apply keep_spec. cbn [label]. auto.
  - unfold canonicalize at 1. cbn [label canonical confidence].
    change (canonicalize s) with
      {| label := label s; canonical := c; confidence := confidence s |}.
    f_equal. rewrite (or_else_id c) by exact Cn.
    change (apply_rules CanonicalizationRules (label s) c = c).
    apply apply_rules_idem.
Qed.

Lemma survivors_In parsed x :
  In x (survivors parsed) <->
  exists raw, In raw (items parsed) /\ keep (sanitize raw) = true /\
              x = canonicalize (sanitize raw).
Proof.
  unfold survivors. rewrite in_map_iff. split.
  - intros (s & <- & H). apply filter_In in H as [H K].
    apply in_map_iff in H as (raw & <- & H). now exists raw.
  - intros (raw & H & K & ->). exists (sanitize raw). split; [reflexivity|].
    apply filter_In. split; [|exact K]. apply in_map_iff. now exists raw.
Qed.

Lemma survivors_normalized parsed : Forall normalized (survivors parsed).
Proof.
  apply List.Forall_forall. intros x H.
  apply survivors_In in H as (raw & _ & K & ->). now exists raw.
Qed.

Lemma chain_fixed l :
  Forall normalized l -> survivors (mkParsed (map raw_of l)) = l.
Proof.
  unfold survivors. cbn [items].
  induction 1 as [|it l H _ IH]; [reflexivity|].
  apply normalized_fixed in H as [K E].
  cbn [map List.filter]. rewrite K. cbn [map]. now rewrite E, IH.
Qed.

(** the items of the response: a prefix of the ranking *)
Lemma itemsRaw_normalized parsed : Forall normalized (itemsRaw parsed).
Proof.
  unfold itemsRaw, rank. apply Forall_take.
  pose proof (survivors_normalized parsed) as H.
  rewrite List.Forall_forall in *. intros x Hx. apply H.
  eapply Permutation_in; [apply sort_perm|exact Hx].
Qed.

Lemma Forall_normalized_unit l : Forall normalized l -> Forall unit_conf l.
Proof. intros H. eapply Forall_impl; [exact H|]. apply normalized_unit. Qed.

Lemma itemsRaw_strongly parsed : StronglySorted desc (itemsRaw parsed).
Proof.
  unfold itemsRaw, rank. apply firstn_strongly.
  pose proof (Forall_normalized_unit _ (survivors_normalized parsed)) as U.
  apply desc_strongly; [now apply sort_unit|now apply sort_desc].
Qed.

(** the chain leaves its own output unchanged *)
Lemma itemsRaw_fixed parsed :
  itemsRaw (mkParsed (map raw_of (itemsRaw parsed))) = itemsRaw parsed.
Proof.
  set (l := itemsRaw parsed).
  pose proof (itemsRaw_normalized parsed) as N. fold l in N.
  unfold itemsRaw at 1. rewrite (chain_fixed l N). unfold rank.
  rewrite sort_fixed.
  - apply firstn_all2. unfold l, itemsRaw, rank. apply firstn_le_length.
  - now apply Forall_normalized_unit.
  - apply StronglySorted_Sorted, itemsRaw_strongly.
Qed.

End ChainFacts.

(** * The claims of the specification *)

Module Claims.
Import JsString JsNumber JsArray.
Import Binary64 StringFacts RegExpSemantics RegExpFacts SortFacts SchemaFacts ChainFacts.

(** the pattern of the fries rule tests for the word "fries": a match of its
    second alternative ends in one *)
Lemma test_fries l : JsRegExp.test re_fries l = true <-> contains "fries" l.
Proof.
  rewrite test_spec. split.
  - intros (a & p & b & -> & H). apply matches_Alt_inv in H as [H|H].
    + apply matches_lit in H as ->. now exists a, b.
    + apply matches_Cat_inv in H as (s1 & s2 & -> & _ & H).
      apply matches_Cat_inv in H as (s3 & s4 & -> & _ & H).
      apply matches_lit in H as ->.
      exists (a ++ s1 ++ s3), b. now rewrite !app_assoc.
  - intros (a & b & ->). exists a, "fries", b. split; [reflexivity|].
    apply M_AltL. now apply matches_lit.
Qed.

Lemma success_iff JSON_parse textOut l :
  normalize JSON_parse textOut = Success l <->
  exists data parsed,
    JSON_parse textOut = Some data /\ ItemsSchema_parse data = Some parsed /\
    l = itemsRaw parsed.
Proof.
  unfold normalize. split.
  - destruct (JSON_parse textOut) as [data|]; [|discriminate].
    destruct (ItemsSchema_parse data) as [parsed|] eqn:E; [|discriminate].
    intros [= <-]. now exists data, parsed.
  - intros (data & parsed & -> & -> & ->). reflexivity.
Qed.

Lemma strongly_app_inv (l1 l2 : list Item) x :
  StronglySorted desc (l1 ++ x :: l2)%list -> Forall (desc x) l2.
Proof.
  induction l1 as [|y l1 IH]; cbn; intros H; apply StronglySorted_inv in H as [H F];
    [exact F|now apply IH].
Qed.

(** a key that is present is read the same when more keys follow *)
Lemma get_prop_app k props extra v :
  get_prop k props = Some v -> get_prop k (props ++ extra)%list = Some v.
Proof.
  induction props as [|[k' v'] props IH]; [discriminate|].
  cbn [get_prop app]. destruct (String.eqb k k'); auto.
Qed.

(** an element the schema accepts has the three keys and their types *)
Lemma well_shaped_typed v : well_shaped_item v -> typed_item v.
Proof. intros (props & l & c & k & -> & Hl & Hc & _ & Hk). now exists props, l, c, k. Qed.

Lemma matches_schema_typed data : matches_schema data -> typed_shape data.
Proof.
  intros (props & elts & -> & E & F). exists props, elts.
  split; [reflexivity|]. split; [exact E|].
  eapply Forall_impl; [exact F|]. apply well_shaped_typed.
Qed.

(** the confidences the schema lets through are finite *)
Lemma parsed_items_finite data parsed :
  ItemsSchema_parse data = Some parsed ->
  Forall (fun raw => is_finite (raw_confidence raw) = true) (items parsed).
Proof.
  intros H. apply ItemsSchema_parse_Some in H as (props & elts & _ & _ & F).
  induction F as [|e r elts its H _ IH]; constructor; [|exact IH].
  now apply z_item_Some in H as (p & _ & _ & _ & N & _).
Qed.

(** a zero is [+0] or [-0] *)
Lemma is_zero_cases c : is_zero c = true -> c = 0%float \/ c = (-0)%float.
Proof.
  unfold is_zero. rewrite FloatAxioms.eqb_spec. intros H.
  rewrite <- (SF2Prim_Prim2SF c).
  change (Prim2SF 0) with (S754_zero false) in H.
  destruct (Prim2SF c) as [[|]|[|]| |[|] m e]; try discriminate; [right|left]; reflexivity.
Qed.

(** on a finite number, [|| 0] changes nothing the clamp keeps *)
Lemma clamp_confidence_finite c :
  is_finite c = true -> clamp_confidence c = Math_max 0 (Math_min 1 c).
Proof.
  intros F. unfold clamp_confidence, or_zero, truthy, Number.
  assert (N : is_nan c = false).
  { unfold is_finite in F. apply negb_true_iff, orb_false_elim in F. tauto. }
  rewrite N. cbn [orb]. destruct (is_zero c) eqn:Z; [|reflexivity].
  apply is_zero_cases in Z as [->| ->]; reflexivity.
Qed.

Section Handler.
Variable JSON_parse : string -> option json.

(** C1. Whenever [normalize] succeeds, the list it returns has at most 5
    items, every confidence lies in [[0,1]], no label is a member of the
    banned set, and the items are in descending order of confidence (every
    item has at least the confidence of every later one). *)
Theorem normalize_output_invariant textOut l :
  normalize JSON_parse textOut = Success l ->
  length l <= 5 /\
  Forall (fun it => (0 <=? confidence it)%float = true /\
                    (confidence it <=? 1)%float = true) l /\
  Forall (fun it => label it ∉ banned) l /\
  StronglySorted (fun a b => (confidence b <=? confidence a)%float = true) l.
Proof.
  intros H. apply success_iff in H as (data & parsed & _ & _ & ->).
  pose proof (itemsRaw_normalized parsed) as N.
  split; [apply firstn_le_length|]. split; [|split].
  - eapply Forall_impl; [exact N|]. intros it Hit.
    apply normalized_unit in Hit. unfold unit_conf, in_unit in Hit.
    now apply andb_prop in Hit.
  - eapply Forall_impl; [exact N|]. intros it Hit. now apply normalized_label in Hit.
  - apply itemsRaw_strongly.
Qed.

(** C3, as the code has it. For a text that decodes, [normalize] answers
    SchemaError whenever the decoded value is not an object whose [items] is
    an array of objects, each with a string [label], a number [confidence]
    and a string [canonical]; it answers with the list of the chain, not
    SchemaError, on a value of that shape with finite confidences, and keys
    besides these at the top level are ignored, not refused.  The error
    carries nothing of the payload.  The texts with the one element
    [{foo: 1}], with a confidence that is a string and with no [canonical]
    are answered SchemaError. *)
Theorem schema_failed_on_wrong_shape textOut data :
  JSON_parse textOut = Some data ->
  (~ typed_shape data -> normalize JSON_parse textOut = schema_failed) /\
  (matches_schema data ->
     exists parsed, ItemsSchema_parse data = Some parsed /\
                    normalize JSON_parse textOut = Success (itemsRaw parsed)) /\
  (forall extra, matches_schema data ->
     match data with
     | JObject props => matches_schema (JObject (props ++ extra)%list)
     | _ => False
     end) /\
  JsonText.read Texts.wrong_shape =
    Some (JObject [("items", JArray [JObject [("foo", JNumber 1)]])]) /\
  normalize JsonText.read Texts.wrong_shape = schema_failed /\
  JsonText.read Texts.text_confidence =
    Some (JObject [("items", JArray [JObject [("label", JString "Apple");
                                             ("confidence", JString "0.9");
                                             ("canonical", JString "apple")]])]) /\
  normalize JsonText.read Texts.text_confidence = schema_failed /\
  JsonText.read Texts.no_canonical =
    Some (JObject [("items", JArray [JObject [("label", JString "Apple");
                                             ("confidence", JNumber 0.9)]])]) /\
  normalize JsonText.read Texts.no_canonical = schema_failed.
Proof.
  intros H. split; [|split; [|split]].
  - intros N. unfold normalize. rewrite H.
    destruct (ItemsSchema_parse data) as [parsed|] eqn:E; [|reflexivity].
    destruct N. apply matches_schema_typed, ItemsSchema_parse_is_Some. now exists parsed.
  - intros M. apply ItemsSchema_parse_is_Some in M as [parsed Hp]. exists parsed.
    split; [exact Hp|]. unfold normalize. now rewrite H, Hp.
  - intros extra (props & elts & -> & E & F). exists (props ++ extra)%list, elts.
    split; [reflexivity|]. split; [|exact F].
    now apply get_prop_app.
  - repeat split; vm_compute; reflexivity.
Qed.

(** C5. On a text that is not valid JSON (the [catch] of lines 145-147),
    [normalize] answers ParseError with the first 400 characters of the text
    at most; and it answers with a list only when the text decoded and the
    schema accepted the value, the list then being that of the whole chain.
    [normalize] is a function: every text has its one response. *)
Theorem parse_failure_reports_prefix textOut :
  JSON_parse textOut = None ->
  let text := slice textOut 0 400 in
  normalize JSON_parse textOut = parse_failed text /\
  String.length text <= 400 /\
  (exists rest, textOut = text ++ rest) /\
  (forall t l, normalize JSON_parse t = Success l <->
     exists data parsed,
       JSON_parse t = Some data /\ ItemsSchema_parse data = Some parsed /\
       l = itemsRaw parsed).
Proof.
  intros H text. split; [|split; [|split]].
  - unfold normalize. now rewrite H.
  - apply slice_length.
  - apply slice_prefix.
  - intros t l. apply success_iff.
Qed.

(** C8. The response is a fixed point: when [normalize] succeeds with the
    list [l], a text that decodes to [{ items: l }] makes it succeed with
    [l] again. *)
Theorem normalize_idempotent textOut l textOut' :
  normalize JSON_parse textOut = Success l ->
  JSON_parse textOut' = Some (items_json l) ->
  normalize JSON_parse textOut' = Success l.
Proof.
  intros H H'. apply success_iff in H as (data & parsed & _ & _ & ->).
  apply success_iff. exists (items_json (itemsRaw parsed)), (mkParsed (map raw_of (itemsRaw parsed))).
  split; [exact H'|]. split; [|symmetry; apply itemsRaw_fixed].
  apply ItemsSchema_parse_items_json.
  eapply Forall_impl; [apply itemsRaw_normalized|].
  intros it Hit. apply in_unit_finite. now apply normalized_unit.
Qed.

End Handler.

(** C2. The second [map] starts from the item's canonical value, or from its
    label when that is empty, and applies the rules in their order, a later
    match overwriting an earlier one: the orange rule wins, then the fries
    rule, then the pasta rule, whatever canonical value was supplied.  With
    no match the starting value stays: the label when the canonical value is
    empty, the canonical value otherwise; after the first [map] that is the
    item's own trimmed, lower-cased canonical value.  So "penne" gives
    "pasta", "fries" gives "french fries" and "mandarin" gives "orange" for
    every supplied canonical value, " Kale " with a blank canonical value
    gives "kale", and "Tofu" with " Bean Curd" gives "bean curd". *)
Theorem canonicalize_applies_rules_in_order it :
  let l := label it in
  let start := if String.eqb (canonical it) "" then l else canonical it in
  label (canonicalize it) = l /\
  confidence (canonicalize it) = confidence it /\
  canonical (canonicalize it) = apply_rules CanonicalizationRules l start /\
  canonical (canonicalize it) =
    (if JsRegExp.test re_orange l then "orange"
     else if JsRegExp.test re_fries l then "french fries"
     else if JsRegExp.test re_pasta l then "pasta"
     else start) /\
  (JsRegExp.test re_orange l = false -> JsRegExp.test re_fries l = false ->
   JsRegExp.test re_pasta l = false ->
   (canonical it = "" -> canonical (canonicalize it) = l) /\
   (canonical it <> "" -> canonical (canonicalize it) = canonical it)) /\
  (forall raw,
     label (sanitize raw) = toLowerCase (trim (raw_label raw)) /\
     canonical (sanitize raw) = toLowerCase (trim (raw_canonical raw))) /\
  (forall k c, canonical (canonicalize (mkItem "penne" k c)) = "pasta") /\
  (forall k c, canonical (canonicalize (mkItem "fries" k c)) = "french fries") /\
  (forall k c, canonical (canonicalize (mkItem "mandarin" k c)) = "orange") /\
  canonicalize (mkItem "kale" "" 0.5) = mkItem "kale" "kale" 0.5 /\
  canonicalize (mkItem "tofu" "bean curd" 0.75) = mkItem "tofu" "bean curd" 0.75 /\
  canonicalize (sanitize (mkRawItem " Kale " 0.5 "  ")) = mkItem "kale" "kale" 0.5 /\
  canonicalize (sanitize (mkRawItem "Tofu" 0.75 " Bean Curd")) =
    mkItem "tofu" "bean curd" 0.75 /\
  canonicalize (sanitize (mkRawItem "Penne" 0.9 "Wheat")) = mkItem "penne" "pasta" 0.9 /\
  normalize JsonText.read Texts.greens =
    Success [mkItem "penne" "pasta" 0.9; mkItem "tofu" "bean curd" 0.75;
             mkItem "kale" "kale" 0.5].
Proof.
  cbv zeta.
  assert (S : or_else (canonical it) (label it) =
              if String.eqb (canonical it) "" then label it else canonical it)
    by (destruct (canonical it); reflexivity).
  rewrite <- S.
  split; [reflexivity|]. split; [reflexivity|].
  split; [apply canonicalize_rules|].
  split; [rewrite canonicalize_rules; apply apply_rules_cases|].
  split.
  { intros O F P. rewrite canonicalize_rules, apply_rules_cases, O, F, P.
    split; [intros ->; reflexivity|apply or_else_id]. }
  split; [intros raw; split; [apply sanitize_label|apply sanitize_canonical]|].
  repeat split; vm_compute; reflexivity.
Qed.


(** C6. On items with confidences in [[0,1]], the ranking is the first 5
    items of a stable descending sort: the sorted list is a rearrangement of
    the input, every item has at least the confidence of every later one,
    and the items of any one confidence stay in their original order. *)
Theorem rank_sorted_stable_truncated l :
  Forall unit_conf l ->
  let sorted := sort by_confidence l in
  Permutation sorted l /\
  StronglySorted desc sorted /\
  (forall c, ties c sorted = ties c l) /\
  rank l = firstn 5 sorted /\
  length (rank l) = Nat.min 5 (length l).
Proof.
  intros U sorted. split; [apply sort_perm|]. split; [|split; [|split]].
  - apply desc_strongly; [now apply sort_unit|now apply sort_desc].
  - intros c. now apply sort_ties.
  - reflexivity.
  - unfold rank. now rewrite length_firstn, sort_length.
Qed.

(** C7. The filter keeps an item exactly when its sanitised label is
    neither empty nor one of the seven banned words, and the chain goes on
    with exactly the kept items: the survivors are the canonicalised items
    whose trimmed, lower-cased label is not dropped, in the order of the
    input, and a successful response is made of survivors, all of them when
    at most 5 survive.  As the label is trimmed and lower-cased first, a
    banned word is dropped in any case of letters and with white space
    around it; a label that only contains a banned word is kept.  The text
    with the one item SNACK and the text with no item both succeed with the
    empty list. *)
Theorem filter_drops_empty_and_banned :
  let dropped l :=
    l = "" \/ In l ["snack"; "food"; "meal"; "dish"; "appetizer"; "plate"; "junk food"] in
  (forall l, l ∈ banned <->
     In l ["snack"; "food"; "meal"; "dish"; "appetizer"; "plate"; "junk food"]) /\
  (forall it, keep it = true <-> ~ dropped (label it)) /\
  (forall parsed x,
     In x (survivors parsed) <->
     exists raw, In raw (items parsed) /\
                 ~ dropped (toLowerCase (trim (raw_label raw))) /\
                 x = canonicalize (sanitize raw)) /\
  (forall parsed,
     map label (survivors parsed) =
     List.filter
       (fun l => negb (String.eqb l "") &&
                 negb (existsb (String.eqb l)
                         ["snack"; "food"; "meal"; "dish"; "appetizer"; "plate"; "junk food"]))
       (map (fun raw => toLowerCase (trim (raw_label raw))) (items parsed))) /\
  (forall JSON_parse textOut l,
     normalize JSON_parse textOut = Success l ->
     exists data parsed,
       JSON_parse textOut = Some data /\ ItemsSchema_parse data = Some parsed /\
       (forall x, In x l -> In x (survivors parsed)) /\
       (length (survivors parsed) <= 5 -> Permutation l (survivors parsed))) /\
  JsonText.read Texts.snack =
    Some (JObject [("items", JArray [JObject [("label", JString "SNACK");
                                             ("confidence", JNumber 0.9);
                                             ("canonical", JString "snack")]])]) /\
  normalize JsonText.read Texts.snack = Success [] /\
  JsonText.read Texts.no_items = Some (JObject [("items", JArray [])]) /\
  normalize JsonText.read Texts.no_items = Success [] /\
  JsonText.read Texts.mixed =
    Some (JObject [("items", JArray [
      JObject [("label", JString " SNACK "); ("confidence", JNumber 0.9);
               ("canonical", JString "snack")];
      JObject [("label", JString "Apple"); ("confidence", JNumber 0.8);
               ("canonical", JString "")];
      JObject [("label", JString "   "); ("confidence", JNumber 0.7);
               ("canonical", JString "blank")];
      JObject [("label", JString "Junk Food"); ("confidence", JNumber 0.6);
               ("canonical", JString "junk")];
      JObject [("label", JString "Fast Food"); ("confidence", JNumber 0.5);
               ("canonical", JString " Burger ")]])]) /\
  normalize JsonText.read Texts.mixed =
    Success [mkItem "apple" "apple" 0.8; mkItem "fast food" "burger" 0.5].
Proof.
  cbv zeta.
  assert (B : forall l, l ∈ banned <->
     In l ["snack"; "food"; "meal"; "dish"; "appetizer"; "plate"; "junk food"]).
  { intros l. unfold banned. rewrite elem_of_list_to_set. apply list_elem_of_In. }
  assert (K : forall it, keep it = true <->
     ~ (label it = "" \/
        In (label it) ["snack"; "food"; "meal"; "dish"; "appetizer"; "plate"; "junk food"])).
  { intros it. rewrite keep_spec, B. tauto. }
  split; [exact B|]. split; [exact K|]. split; [|split; [|split]].
  - intros parsed x. rewrite survivors_In. split.
    + intros (raw & Hin & Hk & ->). exists raw. split; [exact Hin|].
      split; [|reflexivity]. rewrite <- sanitize_label. now apply K.
    + intros (raw & Hin & Hk & ->). exists raw. split; [exact Hin|].
      split; [|reflexivity]. apply K. now rewrite sanitize_label.
  - intros parsed. unfold survivors. rewrite map_map.
    change (fun x => label (canonicalize x)) with label.
    set (f := fun l : string => negb (String.eqb l "") && negb (existsb (String.eqb l) _)).
    assert (E : forall raw, keep (sanitize raw) = f (toLowerCase (trim (raw_label raw)))).
    { intros raw. apply eq_true_iff_eq. rewrite K, sanitize_label. unfold f.
      rewrite andb_true_iff, !negb_true_iff, <- !not_true_iff_false, String.eqb_eq.
      rewrite existsb_exists. split.
      - intros N. split; [tauto|]. intros (w & Hw & Ew). apply String.eqb_eq in Ew.
        subst w. tauto.
      - intros [N1 N2] [H|H]; [tauto|]. apply N2. eexists. split; [exact H|].
        apply String.eqb_refl. }
    induction (items parsed) as [|raw its IH]; [reflexivity|].
    cbn [map List.filter]. rewrite <- E.
    destruct (keep (sanitize raw)); cbn [map]; rewrite IH; [|reflexivity].
    now rewrite sanitize_label.
  - intros JSON_parse textOut l H.
    apply success_iff in H as (data & parsed & Hd & Hp & ->).
    exists data, parsed. split; [exact Hd|]. split; [exact Hp|]. split.
    + intros x Hx. unfold itemsRaw, rank in Hx.
      eapply Permutation_in; [apply sort_perm|].
      rewrite <- (firstn_skipn 5). apply in_or_app. left. exact Hx.
    + intros L. unfold itemsRaw, rank. rewrite firstn_all2; [apply sort_perm|].
      now rewrite sort_length.
  - repeat split; vm_compute; reflexivity.
Qed.

(** C9. An item whose sanitised confidence is 0 (a supplied 0 is one) is
    not filtered out for it: with a label that is neither empty nor banned
    it is in the ranking, behind it come only items of confidence 0, and it
    is in the response when at most 5 items survive the filter. *)
Theorem zero_confidence_item_kept parsed raw :
  In raw (items parsed) ->
  keep (sanitize raw) = true ->
  confidence (sanitize raw) = 0%float ->
  let it := canonicalize (sanitize raw) in
  let ranking := sort by_confidence (survivors parsed) in
  In it ranking /\
  (forall before behind, ranking = (before ++ it :: behind)%list ->
     Forall (fun x => confidence x = 0%float) behind) /\
  (length (survivors parsed) <= 5 -> In it (itemsRaw parsed)) /\
  clamp_confidence 0 = 0%float.
Proof.
  intros Hin K Z it ranking.
  assert (S : In it (survivors parsed)) by (apply survivors_In; now exists raw).
  assert (R : In it ranking).
  { eapply Permutation_in; [symmetry; apply sort_perm|exact S]. }
  pose proof (survivors_normalized parsed) as N.
  assert (NR : Forall normalized ranking).
  { rewrite List.Forall_forall in *. intros x Hx. apply N.
    eapply Permutation_in; [apply sort_perm|exact Hx]. }
  split; [exact R|]. split; [|split; [|reflexivity]].
  - intros before behind E.
    assert (St : StronglySorted desc ranking).
    { apply desc_strongly; [apply sort_unit|apply sort_desc];
        now apply Forall_normalized_unit. }
    rewrite E in St, NR. apply strongly_app_inv in St.
    apply Forall_app in NR as [_ NR]. apply Forall_cons_1 in NR as [_ NR].
    rewrite List.Forall_forall in *. intros x Hx.
    specialize (St x Hx). specialize (NR x Hx). unfold desc in St.
    change (confidence it) with (confidence (sanitize raw)) in St. rewrite Z in St.
    destruct (normalized_clamped x NR) as [c Ec].
    rewrite Ec. apply clamp_confidence_zero. rewrite <- Ec.
    apply unit_le_zero; [now apply normalized_unit|exact St].
  - intros L. unfold itemsRaw, rank. rewrite firstn_all2; [exact R|].
    unfold ranking. now rewrite sort_length.
Qed.


(** the guard of line 138 answers an absent or empty text itself, and hands
    every other text to [normalize] *)
Lemma respond_normalize JSON_parse t :
  t <> "" -> respond JSON_parse (Some t) = normalize JSON_parse t.
Proof. destruct t; [congruence|reflexivity]. Qed.

(** the fifth example of the specification: Spaghetti with confidence 1.5
    and an empty canonical value *)
Lemma spaghetti_example :
  normalize JsonText.read Texts.spaghetti =
  Success [{| label := "spaghetti"; canonical := "pasta"; confidence := 1 |}].
Proof. vm_compute. reflexivity. Qed.

(** ** Counterexamples to the claims as stated *)

(** C3 as stated fails: a decoded value with the top-level keys [items] and
    [extra] passes the schema, which drops [extra], and the response is the
    empty list, not SchemaError. *)
Lemma schema_ignores_extra_keys :
  JsonText.read Texts.extra_key =
    Some (JObject [("items", JArray []); ("extra", JNumber 1)]) /\
  ItemsSchema_parse (JObject [("items", JArray []); ("extra", JNumber 1)]) =
    Some (mkParsed []) /\
  normalize JsonText.read Texts.extra_key = Success [] /\
  normalize JsonText.read Texts.extra_key <> schema_failed.
Proof. repeat split; try (vm_compute; reflexivity). vm_compute. discriminate. Qed.

(** ** Witnesses: the theorems at concrete inputs *)

Lemma normalize_output_invariant_witness :
  let l := [mkItem "mandarin" "orange" 1; mkItem "penne rigate" "pasta" 0.9;
            mkItem "tofu" "tofu" 0.75; mkItem "kale" "kale" 0.5;
            mkItem "fries" "french fries" 0.5] in
  normalize JsonText.read Texts.six = Success l /\
  (length l <= 5 /\
   Forall (fun it => (0 <=? confidence it)%float = true /\
                     (confidence it <=? 1)%float = true) l /\
   Forall (fun it => label it ∉ banned) l /\
   StronglySorted (fun a b => (confidence b <=? confidence a)%float = true) l).
Proof.
  cbv zeta. split; [vm_compute; reflexivity|].
  apply (normalize_output_invariant JsonText.read Texts.six).
  vm_compute. reflexivity.
Defined.

Lemma schema_failed_on_wrong_shape_witness :
  let data := JObject [("items", JArray [JObject [("foo", JNumber 1)]])] in
  JsonText.read Texts.wrong_shape = Some data /\
  (~ typed_shape data -> normalize JsonText.read Texts.wrong_shape = schema_failed).
Proof.
  cbv zeta. split; [vm_compute; reflexivity|].
  apply (schema_failed_on_wrong_shape JsonText.read Texts.wrong_shape).
  vm_compute. reflexivity.
Defined.


Lemma parse_failure_reports_prefix_witness :
  JsonText.read Texts.not_json = None /\
  normalize JsonText.read Texts.not_json = parse_failed "{not json".
Proof.
  split; [vm_compute; reflexivity|].
  apply (parse_failure_reports_prefix JsonText.read Texts.not_json).
  vm_compute. reflexivity.
Defined.

Lemma rank_sorted_stable_truncated_witness :
  let l := [mkItem "kale" "kale" 0.5; mkItem "penne" "pasta" 0.9;
            mkItem "fries" "french fries" 0.5; mkItem "steak" "beef" 0;
            mkItem "mandarin" "orange" 1; mkItem "rice" "rice" 0.25;
            mkItem "tofu" "tofu" 0.5] in
  Forall unit_conf l /\
  rank l = [mkItem "mandarin" "orange" 1; mkItem "penne" "pasta" 0.9;
            mkItem "kale" "kale" 0.5; mkItem "fries" "french fries" 0.5;
            mkItem "tofu" "tofu" 0.5] /\
  (forall c, ties c (sort by_confidence l) = ties c l).
Proof.
  cbv zeta.
  assert (U : Forall unit_conf
                [mkItem "kale" "kale" 0.5; mkItem "penne" "pasta" 0.9;
                 mkItem "fries" "french fries" 0.5; mkItem "steak" "beef" 0;
                 mkItem "mandarin" "orange" 1; mkItem "rice" "rice" 0.25;
                 mkItem "tofu" "tofu" 0.5])
    by (repeat constructor).
  split; [exact U|]. split; [vm_compute; reflexivity|].
  apply (rank_sorted_stable_truncated _ U).
Defined.

Lemma normalize_idempotent_witness :
  let l := [mkItem "spaghetti" "pasta" 1] in
  normalize JsonText.read Texts.spaghetti = Success l /\
  JsonText.read Texts.spaghetti_again = Some (items_json l) /\
  normalize JsonText.read Texts.spaghetti_again = Success l.
Proof.
  cbv zeta. split; [vm_compute; reflexivity|]. split; [vm_compute; reflexivity|].
  apply (normalize_idempotent JsonText.read Texts.spaghetti _ Texts.spaghetti_again);
    vm_compute; reflexivity.
Defined.

Lemma zero_confidence_item_kept_witness :
  let parsed := mkParsed [mkRawItem "Apple" 0.5 "apple"; mkRawItem " Kale" 0 "";
                          mkRawItem "Fries" (-2) "chips"] in
  let raw := mkRawItem " Kale" 0 "" in
  In raw (items parsed) /\
  keep (sanitize raw) = true /\
  confidence (sanitize raw) = 0%float /\
  In (mkItem "kale" "kale" 0) (itemsRaw parsed).
Proof.
  cbv zeta. split; [right; left; reflexivity|]. split; [reflexivity|].
  split; [reflexivity|].
  apply (zero_confidence_item_kept
           (mkParsed [mkRawItem "Apple" 0.5 "apple"; mkRawItem " Kale" 0 "";
                      mkRawItem "Fries" (-2) "chips"])
           (mkRawItem " Kale" 0 ""));
    [right; left; reflexivity|reflexivity|reflexivity|vm_compute; lia].
Defined.

End Claims.

(** * More of the code *)

(** ** The order of all binary64 values *)

Module Binary64Order.
Import JsNumber Binary64.
Local Open Scope Z_scope.

Lemma level_finite_bounds m e :
  bounded FloatOps.prec FloatOps.emax m e = true ->
  0 < Zpos m * 2 ^ (e + 1074) < 2 ^ 2100.
Proof.
  intros B. split; [now apply ord_pos|].
  pose proof (bounded_inv _ _ B) as E.
  unfold bounded in B. apply andb_prop in B as [_ B]. apply Z.leb_le in B.
  change (FloatOps.emax - FloatOps.prec) with 971 in B.
  pose proof (digits2_bounds m) as [_ D].
  assert (2 ^ Zpos (digits2_pos m) <= 2 ^ 53) by (apply Z.pow_le_mono_r; lia).
  assert (2 ^ (e + 1074) <= 2 ^ 2045) by (apply Z.pow_le_mono_r; lia).
  pose proof (pow2_pos (e + 1074) ltac:(lia)).
  replace (2 ^ 2100) with (2 ^ 53 * 2 ^ 2045 * 4) by (rewrite <- Z.pow_add_r by lia; reflexivity).
  generalize dependent (2 ^ (e + 1074)). generalize dependent (2 ^ 53).
  generalize dependent (2 ^ 2045). generalize dependent (2 ^ Zpos (digits2_pos m)).
  intros. nia.
Qed.

Lemma positive_compare mx ex my ey :
  bounded FloatOps.prec FloatOps.emax mx ex = true ->
  bounded FloatOps.prec FloatOps.emax my ey = true ->
  (Zpos mx * 2 ^ (ex + 1074) ?= Zpos my * 2 ^ (ey + 1074)) =
  match ex ?= ey with
  | Lt => Lt
  | Gt => Gt
  | Eq => Pos.compare_cont Eq mx my
  end.
Proof.
  intros Bx By.
  pose proof (SFcompare_ord (S754_finite false mx ex) (S754_finite false my ey) Bx By
                eq_refl eq_refl) as H.
  cbn [SFcompare ord] in H. now injection H as <-.
Qed.

(** settles a comparison of two levels whose order the signs decide *)
Ltac by_order :=
  cbn [cond_Zopp]; f_equal; symmetry;
  solve [apply Z.compare_eq_iff; lia|apply Z.compare_lt_iff; lia|apply Z.compare_gt_iff; lia].

(** on the values other than [NaN], the comparison is the order of the
    levels *)
Lemma SFcompare_level x y :
  valid_binary x = true -> valid_binary y = true ->
  x <> S754_nan -> y <> S754_nan ->
  SFcompare x y = Some (level x ?= level y).
Proof.
  intros Vx Vy Nx Ny.
  assert (I : 0 < 2 ^ 2100) by (apply pow2_pos; lia).
  destruct x as [sx|sx| |sx mx ex], y as [sy|sy| |sy my ey]; try congruence;
    cbn [valid_binary] in Vx, Vy; cbn [SFcompare level].
  - reflexivity.
  - destruct sy; by_order.
  - pose proof (level_finite_bounds _ _ Vy). destruct sy; by_order.
  - destruct sx; by_order.
  - destruct sx, sy; by_order.
  - pose proof (level_finite_bounds _ _ Vy). destruct sx, sy; by_order.
  - pose proof (level_finite_bounds _ _ Vx). destruct sx; by_order.
  - pose proof (level_finite_bounds _ _ Vx). destruct sx, sy; by_order.
  - pose proof (level_finite_bounds _ _ Vx). pose proof (level_finite_bounds _ _ Vy).
    pose proof (positive_compare _ _ _ _ Vx Vy) as P.
    destruct sx, sy; try by_order; cbn [cond_Zopp]; f_equal.
    + rewrite Z.compare_opp, (Z.compare_antisym (Zpos mx * 2 ^ (ex + 1074))), P.
      now destruct (ex ?= ey).
    + now rewrite P.
Qed.

Lemma leb_level x y :
  is_nan x = false -> is_nan y = false ->
  (x <=? y)%float = (level (Prim2SF x) <=? level (Prim2SF y)).
Proof.
  intros Hx Hy. rewrite leb_spec. unfold SFleb.
  rewrite SFcompare_level by auto using Prim2SF_valid, is_nan_false_SF.
  unfold Z.leb. now destruct (_ ?= _).
Qed.

Lemma ltb_level x y :
  is_nan x = false -> is_nan y = false ->
  (x <? y)%float = (level (Prim2SF x) <? level (Prim2SF y)).
Proof.
  intros Hx Hy. rewrite ltb_spec. unfold SFltb.
  rewrite SFcompare_level by auto using Prim2SF_valid, is_nan_false_SF.
  unfold Z.ltb. now destruct (_ ?= _).
Qed.

Lemma is_zero_level x :
  is_nan x = false -> is_zero x = (level (Prim2SF x) =? 0).
Proof.
  intros Hx. unfold is_zero. rewrite FloatAxioms.eqb_spec. unfold SFeqb.
  rewrite SFcompare_level by (auto using Prim2SF_valid, is_nan_false_SF; discriminate).
  change (level (Prim2SF zero)) with 0.
  destruct (Z.compare_spec (level (Prim2SF x)) 0); symmetry;
    [now apply Z.eqb_eq|apply Z.eqb_neq; lia|apply Z.eqb_neq; lia].
Qed.

(** a comparison that holds has no [NaN] operand *)
Lemma leb_not_nan x y :
  (x <=? y)%float = true -> is_nan x = false /\ is_nan y = false.
Proof.
  rewrite leb_spec. unfold SFleb. intros H.
  split; apply not_true_iff_false; intros N; apply is_nan_true_SF in N;
    rewrite N in H; [|destruct (Prim2SF x)]; discriminate.
Qed.

End Binary64Order.

(** ** More of the chain *)

Module MoreChainFacts.
Import JsString JsNumber JsArray.
Import Binary64 Binary64Order StringFacts SortFacts SchemaFacts ChainFacts.

Lemma eqb_not_nan x y :
  (x =? y)%float = true -> is_nan x = false /\ is_nan y = false.
Proof.
  rewrite FloatAxioms.eqb_spec. unfold SFeqb. intros H.
  split; apply not_true_iff_false; intros N; apply is_nan_true_SF in N;
    rewrite N in H; [|destruct (Prim2SF x)]; discriminate.
Qed.

Lemma eqb_level x y :
  is_nan x = false -> is_nan y = false ->
  (x =? y)%float = (level (Prim2SF x) =? level (Prim2SF y))%Z.
Proof.
  intros Hx Hy. rewrite FloatAxioms.eqb_spec. unfold SFeqb.
  rewrite SFcompare_level by auto using Prim2SF_valid, is_nan_false_SF.
  destruct (Z.compare_spec (level (Prim2SF x)) (level (Prim2SF y))); symmetry;
    [now apply Z.eqb_eq|apply Z.eqb_neq; lia|apply Z.eqb_neq; lia].
Qed.

(** two values equal to a third are equal *)
Lemma eqb_both x y c :
  (x =? c)%float = true -> (y =? c)%float = true -> (x =? y)%float = true.
Proof.
  intros Hx Hy.
  destruct (eqb_not_nan _ _ Hx) as [Nx Nc]. destruct (eqb_not_nan _ _ Hy) as [Ny _].
  rewrite eqb_level in * by assumption. rewrite Z.eqb_eq in *. congruence.
Qed.

(** a sanitised string is left as it is by [trim] and by [toLowerCase] *)
Lemma clean_trim s : toLowerCase (trim s) = s -> trim s = s.
Proof. intros H. rewrite <- H at 1. now rewrite <- trim_toLowerCase, trim_idem, trim_toLowerCase. Qed.

Lemma clean_lower s : toLowerCase (trim s) = s -> toLowerCase s = s.
Proof. intros H. rewrite <- H. apply toLowerCase_idem. Qed.

Lemma normalized_clean it :
  normalized it ->
  toLowerCase (trim (label it)) = label it /\
  toLowerCase (trim (canonical it)) = canonical it /\
  canonical it <> "".
Proof.
  intros (raw & K & ->). apply keep_spec in K as [Ne _].
  assert (Ll : toLowerCase (trim (label (sanitize raw))) = label (sanitize raw))
    by (rewrite sanitize_label; apply sanitize_string_idem).
  assert (Lc : toLowerCase (trim (canonical (sanitize raw))) = canonical (sanitize raw))
    by (rewrite sanitize_canonical; apply sanitize_string_idem).
  split; [exact Ll|]. rewrite canonicalize_rules. split.
  - apply apply_rules_clean, or_else_clean; assumption.
  - apply apply_rules_nonempty, or_else_nonempty; assumption.
Qed.

Lemma filter_perm {A} (f : A -> bool) l1 l2 :
  Permutation l1 l2 -> Permutation (List.filter f l1) (List.filter f l2).
Proof.
  induction 1 as [|x l1 l2 _ IH|x y l|l1 l2 l3 _ IH1 _ IH2]; cbn [List.filter].
  - constructor.
  - destruct (f x); [now constructor|exact IH].
  - destruct (f x), (f y); try reflexivity. apply perm_swap.
  - now rewrite IH1.
Qed.

(** the kept and the dropped items together are the list *)
Lemma filter_split {A} (f : A -> bool) l :
  Permutation (List.filter f l ++ List.filter (fun x => negb (f x)) l) l.
Proof.
  induction l as [|x l IH]; cbn [List.filter]; [constructor|].
  destruct (f x); cbn [negb app].
  - now constructor.
  - rewrite <- Permutation_middle. now constructor.
Qed.

Lemma survivors_perm parsed1 parsed2 :
  Permutation (items parsed1) (items parsed2) ->
  Permutation (survivors parsed1) (survivors parsed2).
Proof.
  intros P. unfold survivors. apply Permutation_map, filter_perm.
  now apply Permutation_map.
Qed.

Lemma survivors_length parsed : length (survivors parsed) <= length (items parsed).
Proof.
  unfold survivors. rewrite !length_map.
  etransitivity; [apply filter_length_le|]. now rewrite length_map.
Qed.

(** earlier items of a descending list are at least the later ones *)
Lemma strongly_app (l1 l2 : list Item) a b :
  StronglySorted desc (l1 ++ l2)%list -> In a l1 -> In b l2 -> desc a b.
Proof.
  induction l1 as [|x l1 IH]; cbn [app]; intros S Ha Hb; [destruct Ha|].
  apply StronglySorted_inv in S as [S F]. destruct Ha as [<-|Ha]; [|now apply IH].
  rewrite List.Forall_forall in F. apply F, in_or_app. now right.
Qed.

Lemma ties_once x l c :
  forallb (fun y => negb (confidence x =? confidence y)%float) l = true ->
  (confidence x =? c)%float = true -> ties c l = [].
Proof.
  intros F Hx. induction l as [|y l IH]; [reflexivity|].
  cbn [forallb] in F. apply andb_prop in F as [Fy F]. rewrite ties_cons.
  destruct (confidence y =? c)%float eqn:Hy; [|now apply IH].
  rewrite (eqb_both _ _ _ Hx Hy) in Fy. discriminate.
Qed.

(** with pairwise different confidences no two items tie *)
Lemma distinct_ties l c :
  distinct_confidences l = true -> length (ties c l) <= 1.
Proof.
  induction l as [|x l IH]; cbn [distinct_confidences]; intros D; [cbn; lia|].
  apply andb_prop in D as [F D]. rewrite ties_cons.
  destruct (confidence x =? c)%float eqn:Hx; [|now apply IH].
  rewrite (ties_once x l c F Hx). cbn. lia.
Qed.

Lemma short_perm_eq {A} (l1 l2 : list A) :
  length l1 <= 1 -> Permutation l1 l2 -> l1 = l2.
Proof.
  intros L P. destruct l1 as [|x [|y l1]]; cbn in L; try lia.
  - now apply Permutation_nil in P.
  - now apply Permutation_length_1_inv in P.
Qed.

End MoreChainFacts.

(** ** The format asked of the upstream model *)

Module FormatFacts.
Import SchemaFacts.

(** an element the format allows is an element the schema accepts *)
Lemma conforms_item v :
  conforms
    (s_object ["label"; "confidence"; "canonical"]
       [("label", s_string); ("confidence", s_number); ("canonical", s_string)]) v = true ->
  well_shaped_item v.
Proof.
  destruct v as [| | | | |props]; try discriminate. cbn [conforms forallb].
  intros H. apply andb_prop in H as [H P]. apply andb_prop in H as [R _].
  destruct (get_prop "label" props) as [vl|] eqn:El; [|discriminate].
  destruct (get_prop "confidence" props) as [vc|] eqn:Ec; [|discriminate].
  destruct (get_prop "canonical" props) as [vk|] eqn:Ek; [|discriminate].
  clear R. apply andb_prop in P as [Pl P]. apply andb_prop in P as [Pc P].
  apply andb_prop in P as [Pk _].
  destruct vl as [| | |l| |]; try discriminate.
  destruct vc as [| |c| | |]; try discriminate.
  destruct vk as [| | |k| |]; try discriminate.
  cbn [conforms] in Pc. exists props, l, c, k.
  repeat split; auto.
Qed.

(** a value the format allows is a value the schema accepts, of at most 5
    elements *)
Lemma conforms_food_labels data :
  conforms food_labels data = true ->
  exists parsed, ItemsSchema_parse data = Some parsed /\ length (items parsed) <= 5.
Proof.
  destruct data as [| | | | |props]; try discriminate.
  unfold food_labels. cbn [conforms forallb].
  intros H. apply andb_prop in H as [H P]. apply andb_prop in H as [R _].
  destruct (get_prop "items" props) as [v|] eqn:E; [|discriminate]. clear R.
  apply andb_prop in P as [P _].
  destruct v as [| | | |elts|]; try discriminate.
  cbn [conforms] in P. apply andb_prop in P as [L F]. apply andb_prop in L as [_ L].
  apply Nat.leb_le in L.
  assert (M : matches_schema (JObject props)).
  { exists props, elts. split; [reflexivity|]. split; [exact E|].
    apply List.Forall_forall. intros x Hx. apply conforms_item.
    rewrite forallb_forall in F. now apply F. }
  apply ItemsSchema_parse_is_Some in M as [parsed Hp]. exists parsed.
  split; [exact Hp|].
  apply ItemsSchema_parse_Some in Hp as (props' & elts' & [= <-] & E' & F2).
  rewrite E in E'. injection E' as <-.
  apply Forall2_length in F2. lia.
Qed.

End FormatFacts.

(** * Further properties of the code *)

Module Extras.
Import JsString JsNumber JsArray.
Import Binary64 Binary64Order StringFacts SortFacts SchemaFacts ChainFacts.
Import MoreChainFacts FormatFacts.

(** X3. The truncation drops the lowest: the ranking of the survivors is the
    response followed by the dropped items, every dropped item has at most
    the confidence of every item of the response, and items are dropped only
    beyond the fifth. *)
Theorem truncation_drops_lowest parsed :
  exists dropped,
    sort by_confidence (survivors parsed) = (itemsRaw parsed ++ dropped)%list /\
    (forall a b, In a (itemsRaw parsed) -> In b dropped ->
       (confidence b <=? confidence a)%float = true) /\
    length dropped = length (survivors parsed) - 5.
Proof.
  exists (skipn 5 (sort by_confidence (survivors parsed))).
  unfold itemsRaw, rank. split; [now rewrite firstn_skipn|]. split.
  - intros a b Ha Hb.
    pose proof (Forall_normalized_unit _ (survivors_normalized parsed)) as U.
    assert (S : StronglySorted desc (sort by_confidence (survivors parsed)))
      by (apply desc_strongly; [now apply sort_unit|now apply sort_desc]).
    rewrite <- (firstn_skipn 5) in S. exact (strongly_app _ _ a b S Ha Hb).
  - now rewrite length_skipn, sort_length.
Qed.

(** X4. The response does not depend on the order in which the upstream
    model lists the items, when no two surviving items have equal
    confidences. *)
Theorem response_order_independent parsed1 parsed2 :
  Permutation (items parsed1) (items parsed2) ->
  distinct_confidences (survivors parsed1) = true ->
  itemsRaw parsed1 = itemsRaw parsed2.
Proof.
  intros P D. unfold itemsRaw, rank. f_equal.
  pose proof (survivors_perm _ _ P) as PS.
  pose proof (Forall_normalized_unit _ (survivors_normalized parsed1)) as U1.
  pose proof (Forall_normalized_unit _ (survivors_normalized parsed2)) as U2.
  symmetry. apply sort_determined; auto.
  - rewrite sort_perm. now symmetry.
  - now apply sort_desc.
  - intros c. rewrite sort_ties by assumption. symmetry.
    apply short_perm_eq; [now apply distinct_ties|]. now apply filter_perm.
Qed.

(** X5. Sanitising never reverses two confidences: when one supplied
    confidence is at most another, so are the sanitised ones (out-of-range
    values become equal to the bound, never pass it). *)
Theorem sanitize_preserves_order raw1 raw2 :
  (raw_confidence raw1 <=? raw_confidence raw2)%float = true ->
  (confidence (sanitize raw1) <=? confidence (sanitize raw2))%float = true.
Proof.
  intros H. cbn [sanitize confidence].
  destruct (leb_not_nan _ _ H) as [N1 N2].
  rewrite leb_level in H by assumption. apply Z.leb_le in H.
  rewrite leb_level by (apply in_unit_not_nan, clamp_confidence_in_unit).
  apply Z.leb_le. rewrite !clamp_confidence_eq, N1, N2. cbn [orb].
  rewrite !is_zero_level, !ltb_level by (assumption || reflexivity).
  set (a := level (Prim2SF (raw_confidence raw1))) in *.
  set (b := level (Prim2SF (raw_confidence raw2))) in *.
  change (level (Prim2SF 0)) with 0%Z.
  assert (O : (0 < level (Prim2SF 1))%Z) by reflexivity.
  set (one := level (Prim2SF 1)) in *.
  destruct (Z.eqb_spec a 0), (Z.eqb_spec b 0), (Z.ltb_spec one a), (Z.ltb_spec one b),
    (Z.ltb_spec 0 a), (Z.ltb_spec 0 b);
    fold a b one; change (level (Prim2SF 0)) with 0%Z; lia.
Qed.

Section Handler.
Variable JSON_parse : string -> option json.

(** X1. Every item of a successful response has a label and a canonical
    value that are not empty and that [trim] and [toLowerCase] leave as they
    are: no surrounding white space, no capital letter. *)
Theorem response_items_clean textOut l :
  normalize JSON_parse textOut = Success l ->
  Forall (fun it =>
            label it <> "" /\ canonical it <> "" /\
            trim (label it) = label it /\ toLowerCase (label it) = label it /\
            trim (canonical it) = canonical it /\
            toLowerCase (canonical it) = canonical it) l.
Proof.
  intros H. apply Claims.success_iff in H as (data & parsed & _ & _ & ->).
  eapply Forall_impl; [apply itemsRaw_normalized|]. intros it N.
  destruct (normalized_clean it N) as (Ll & Lc & Nc).
  destruct (normalized_label it N) as [Nl _].
  auto 10 using clean_trim, clean_lower.
Qed.

(** X2. A successful response invents nothing and repeats nothing: together
    with the items left out it is a rearrangement of the sanitised and
    canonicalised items of the input, so it has at most as many items as
    the input. *)
Theorem response_items_from_input textOut l :
  normalize JSON_parse textOut = Success l ->
  exists data parsed left_out,
    JSON_parse textOut = Some data /\ ItemsSchema_parse data = Some parsed /\
    Permutation (l ++ left_out)
      (map (fun raw => canonicalize (sanitize raw)) (items parsed)) /\
    length l <= length (items parsed).
Proof.
  intros H. apply Claims.success_iff in H as (data & parsed & Hd & Hp & ->).
  exists data, parsed,
    (skipn 5 (sort by_confidence (survivors parsed)) ++
     map canonicalize
       (List.filter (fun it => negb (keep it)) (map sanitize (items parsed))))%list.
  split; [exact Hd|]. split; [exact Hp|]. split.
  - unfold itemsRaw, rank. rewrite List.app_assoc, firstn_skipn, sort_perm.
    unfold survivors. rewrite <- map_app, filter_split. now rewrite map_map.
  - unfold itemsRaw, rank. rewrite length_firstn, sort_length.
    pose proof (survivors_length parsed). lia.
Qed.


End Handler.

(** closes a goal [In x table] over a table written out *)
Ltac in_table := cbn [In]; repeat (first [left; reflexivity|right]).

Section Application.
Variable JSON_parse : string -> option json.
Variable Buffer : Type.
Variable upstream : Buffer -> Outcome.

Lemma on_error_status e :
  exists tag, on_error e = mkHttp (status (on_error e)) (json_error tag None) /\
              In (status (on_error e), tag)
                [(504, "upstream-timeout"); (413, "file-too-large"); (500, "vision-failed")].
Proof.
  unfold on_error.
  destruct (strict_eq (message e) "upstream-timeout");
    [|destruct (strict_eq (code e) "LIMIT_FILE_SIZE")];
    eexists; (split; [reflexivity|in_table]).
Qed.

Lemma reply_ok r l : reply r = mkHttp 200 (json_items l) <-> r = Success l.
Proof.
  split; [|now intros ->]. destruct r; cbn; try discriminate. now intros [= ->].
Qed.

Lemma recognize_status env file :
  In (status (recognize JSON_parse upstream env file)) [200; 400; 413; 500; 502; 504].
Proof.
  unfold recognize.
  destruct (env_or (env_OPENAI_API_KEY env) ""); [in_table|].
  destruct file as [f|]; [|in_table].
  destruct (upstream f) as [t|e].
  - destruct (respond JSON_parse t); in_table.
  - destruct (on_error_status e) as (tag & _ & [H|[H|[H|[]]]]);
      injection H as <- _; in_table.
Qed.

(** X7. The handler of [/recognize] answers 200 exactly when the API key is
    set and not empty, an image was uploaded, the upstream call returned a
    non-empty text, and the text decoded to a value the schema accepts; the
    body is then the chain's list.  It answers 200 in no other form. *)
Theorem recognize_ok_iff env file :
  (forall l,
     recognize JSON_parse upstream env file = mkHttp 200 (json_items l) <->
     exists key f t data parsed,
       env_OPENAI_API_KEY env = Some key /\ key <> "" /\ file = Some f /\
       upstream f = resolved (Some t) /\ t <> "" /\
       JSON_parse t = Some data /\ ItemsSchema_parse data = Some parsed /\
       l = itemsRaw parsed) /\
  (status (recognize JSON_parse upstream env file) = 200 ->
   exists l, recognize JSON_parse upstream env file = mkHttp 200 (json_items l)).
Proof.
  split.
  - intros l. unfold recognize. split.
    + destruct (env_OPENAI_API_KEY env) as [[|c key]|] eqn:K; cbn [env_or or_else];
        try discriminate.
      destruct file as [f|]; [|discriminate].
      destruct (upstream f) as [[[|c' t]|]|e] eqn:U; cbn [respond]; try discriminate.
      * intros H. apply reply_ok, Claims.success_iff in H as (data & parsed & Hd & Hp & ->).
        exists (String c key), f, (String c' t), data, parsed. repeat split; auto; discriminate.
      * destruct (on_error_status e) as (tag & -> & _). discriminate.
    + intros (key & f & t & data & parsed & -> & Nk & -> & -> & Nt & Hd & Hp & ->).
      destruct key as [|c key]; [congruence|]. cbn [env_or or_else].
      destruct t as [|c' t]; [congruence|]. cbn [respond].
      apply reply_ok, Claims.success_iff. now exists data, parsed.
  - unfold recognize.
    destruct (env_or (env_OPENAI_API_KEY env) ""); [discriminate|].
    destruct file as [f|]; [|discriminate].
    destruct (upstream f) as [t|e].
    + destruct (respond JSON_parse t); cbn; try discriminate. eauto.
    + destruct (on_error_status e) as (tag & _ & [H|[H|[H|[]]]]);
        injection H as <- _; discriminate.
Qed.

(** X9. What the handler of [/recognize] answers to a request that
    [upload.single] passed on to it: a list of at most 5 items with status
    200, or one of eight error tags with its status; never a text body.  Of
    what the upstream sent or threw, an error body carries nothing but, for
    [parse-failed], the first 400 characters of the text at most. *)
Theorem recognize_responses_table env file :
  let r := recognize JSON_parse upstream env file in
  match body r with
  | json_items l => status r = 200 /\ length l <= 5
  | plain s => False
  | json_error tag None =>
      In (status r, tag)
        [(500, "missing-openai-key"); (400, "missing-image");
         (504, "upstream-timeout"); (413, "file-too-large"); (500, "vision-failed");
         (502, "no-output-text"); (502, "schema-failed")]
  | json_error tag (Some text) =>
      status r = 502 /\ tag = "parse-failed" /\ String.length text <= 400 /\
      exists f full rest,
        file = Some f /\ upstream f = resolved (Some full) /\
        full = text ++ rest
  end.
Proof.
  cbv zeta. unfold recognize.
  destruct (env_or (env_OPENAI_API_KEY env) ""); [cbn; in_table|].
  destruct file as [f|]; [|cbn; in_table].
  destruct (upstream f) as [[[|c t]|]|e] eqn:U; cbn [respond reply body status];
    try in_table.
  - unfold normalize. destruct (JSON_parse (String c t)) as [data|].
    + destruct (ItemsSchema_parse data) as [parsed|]; cbn [reply body status];
        [|in_table]. split; [reflexivity|]. unfold itemsRaw, rank. apply firstn_le_length.
    + cbn [reply body status]. split; [reflexivity|]. split; [reflexivity|].
      split; [apply slice_length|].
      destruct (slice_prefix (String c t) 400) as [rest Hr].
      exists f, (String c t), rest. auto.
  - destruct (on_error_status e) as (tag & -> & [H|[H|[H|[]]]]); cbn [body status];
      injection H as <- <-; in_table.
Qed.

(** what is sent after the upstream call is none of the four refusals *)
Lemma after_call_body o :
  let r := match o with
           | rejected e => on_error e
           | resolved textOut => reply (respond JSON_parse textOut)
           end in
  ~ In (body r)
      [json_error "unauthorized" None; plain "ok";
       json_error "missing-openai-key" None; json_error "missing-image" None].
Proof.
  cbv zeta. destruct o as [t|e].
  - destruct (respond JSON_parse t); cbn; intuition discriminate.
  - destruct (on_error_status e) as (tag & -> & [H|[H|[H|[]]]]);
      injection H as _ <-; cbn; intuition discriminate.
Qed.

(** X10. The server answers 401 exactly when a non-empty [CLIENT_TOKEN] is
    configured and the [X-Client-Token] header is absent or differs from
    it, on the health check as on [/recognize]; with the variable unset or
    empty no request is refused. *)
Theorem unauthorized_iff env header route :
  server JSON_parse upstream env header route =
    mkHttp 401 (json_error "unauthorized" None) <->
  exists token,
    env_CLIENT_TOKEN env = Some token /\ token <> "" /\ header <> Some token.
Proof.
  unfold server. split.
  - destruct (token_check (env_or (env_CLIENT_TOKEN env) "") header) eqn:T.
    + destruct route as [|file]; [discriminate|]. intros H.
      pose proof (recognize_status env file) as S. rewrite H in S. cbn in S.
      repeat destruct S as [S|S]; discriminate || contradiction.
    + intros _. unfold token_check in T.
      destruct (env_CLIENT_TOKEN env) as [[|c token]|]; cbn [env_or or_else] in T;
        try discriminate.
      exists (String c token). split; [reflexivity|]. split; [discriminate|].
      intros ->. cbn [strict_eq] in T. now rewrite String.eqb_refl in T.
  - intros (token & -> & Nt & Nh). destruct token as [|c token]; [congruence|].
    cbn [env_or or_else token_check].
    destruct header as [h|]; cbn [strict_eq]; [|reflexivity].
    destruct (String.eqb_spec h (String c token)) as [->|_]; [congruence|reflexivity].
Qed.

End Application.


(** ** Witnesses: the further properties at concrete inputs *)

Lemma response_items_clean_witness :
  let l := [mkItem "mandarin" "orange" 1; mkItem "penne rigate" "pasta" 0.9;
            mkItem "tofu" "tofu" 0.75; mkItem "kale" "kale" 0.5;
            mkItem "fries" "french fries" 0.5] in
  normalize JsonText.read Texts.six = Success l /\
  Forall (fun it =>
            label it <> "" /\ canonical it <> "" /\
            trim (label it) = label it /\ toLowerCase (label it) = label it /\
            trim (canonical it) = canonical it /\
            toLowerCase (canonical it) = canonical it) l.
Proof.
  cbv zeta. split; [vm_compute; reflexivity|].
  apply (response_items_clean JsonText.read Texts.six). vm_compute. reflexivity.
Defined.

Lemma response_items_from_input_witness :
  let l := [mkItem "spaghetti" "pasta" 1] in
  normalize JsonText.read Texts.spaghetti = Success l /\
  exists data parsed left_out,
    JsonText.read Texts.spaghetti = Some data /\ ItemsSchema_parse data = Some parsed /\
    Permutation (l ++ left_out)
      (map (fun raw => canonicalize (sanitize raw)) (items parsed)) /\
    length l <= length (items parsed).
Proof.
  cbv zeta. split; [vm_compute; reflexivity|].
  apply (response_items_from_input JsonText.read Texts.spaghetti). vm_compute. reflexivity.
Defined.

Lemma response_order_independent_witness :
  let a := mkRawItem "Kale" 0.5 "" in
  let b := mkRawItem "Penne" 0.9 "" in
  let c := mkRawItem "Tofu" 0.75 "tofu" in
  Permutation (items (mkParsed [c; a; b])) (items (mkParsed [a; b; c])) /\
  distinct_confidences (survivors (mkParsed [c; a; b])) = true /\
  itemsRaw (mkParsed [c; a; b]) = itemsRaw (mkParsed [a; b; c]).
Proof.
  cbv zeta.
  assert (P : Permutation
                (items (mkParsed [mkRawItem "Tofu" 0.75 "tofu"; mkRawItem "Kale" 0.5 "";
                                  mkRawItem "Penne" 0.9 ""]))
                (items (mkParsed [mkRawItem "Kale" 0.5 ""; mkRawItem "Penne" 0.9 "";
                                  mkRawItem "Tofu" 0.75 "tofu"])))
    by apply (Permutation_cons_append [mkRawItem "Kale" 0.5 ""; mkRawItem "Penne" 0.9 ""]).
  split; [exact P|]. split; [vm_compute; reflexivity|].
  apply (response_order_independent _ _ P). vm_compute. reflexivity.
Defined.

Lemma sanitize_preserves_order_witness :
  (raw_confidence (mkRawItem "steak" (-3) "beef") <=?
   raw_confidence (mkRawItem "mandarin" 7 ""))%float = true /\
  (confidence (sanitize (mkRawItem "steak" (-3) "beef")) <=?
   confidence (sanitize (mkRawItem "mandarin" 7 "")))%float = true.
Proof.
  split; [reflexivity|].
  apply (sanitize_preserves_order (mkRawItem "steak" (-3) "beef") (mkRawItem "mandarin" 7 "")).
  reflexivity.
Defined.


End Extras.
